(** * A shallow embedding of the Jenkins adapter (src/mcp/jenkins.mjs)

    The adapter is a thin layer over fetch: it resolves a folder-qualified job
    name to a URL path, issues one or two HTTP requests, and turns the response
    into a text block.  JavaScript strings are sequences of UTF-16 code units,
    and everything the adapter does with them (split, join, slice, length,
    encodeURIComponent) is defined on code units, so that is how they are
    modelled here. *)

From Stdlib Require Import List NArith ZArith QArith Bool Ascii String Lia.
From Stdlib Require Import DecimalString.
Import ListNotations.
Close Scope Q_scope.

Set Implicit Arguments.

(** ** Strings *)

(** A string value: its UTF-16 code units, each in [0, 65535]. *)
Definition jsstring := list N.

(** An ASCII literal of the source, as code units. *)
Definition lit (s : string) : jsstring :=
  map N_of_ascii (list_ascii_of_string s).

Definition jsstring_eqb (a b : jsstring) : bool :=
  if list_eq_dec N.eq_dec a b then true else false.

(** ** Exceptions and results *)

Inductive exn :=
| URIError                       (* encodeURIComponent on an unpaired surrogate *)
| TypeError                      (* property of null, not iterable, not convertible *)
| RangeError                     (* the engine's stack or string length is exhausted *)
| SyntaxError                    (* res.json() on a body that is not JSON *)
| FetchFailed                    (* fetch itself rejects: no response at all *)
| BodyUnreadable                 (* the response body stream fails *)
| Error (message : jsstring).    (* new Error(message) *)

Inductive result (A : Type) :=
| Ok (a : A)
| Throw (e : exn).
Arguments Ok {A} a.
Arguments Throw {A} e.

Definition rbind {A B} (r : result A) (k : A -> result B) : result B :=
  match r with Ok a => k a | Throw e => Throw e end.

(** [Array.prototype.map] with a callback that may throw: the first exception
    leaves the loop. *)
Fixpoint rmap {A B} (f : A -> result B) (l : list A) : result (list B) :=
  match l with
  | [] => Ok []
  | x :: r => rbind (f x) (fun y => rbind (rmap f r) (fun ys => Ok (y :: ys)))
  end.

(** ** split, join, slice *)

(** [s.split(c)] for a separator of one code unit. *)
Fixpoint split (c : N) (s : jsstring) : list jsstring :=
  match s with
  | [] => [[]]
  | x :: r =>
      if N.eqb x c then [] :: split c r
      else match split c r with
           | h :: t => (x :: h) :: t
           | [] => [[x]]
           end
  end.

(** [a.join(sep)] on an array of strings. *)
Fixpoint join (sep : jsstring) (l : list jsstring) : jsstring :=
  match l with
  | [] => []
  | [x] => x
  | x :: r => x ++ sep ++ join sep r
  end.

(** ToIntegerOrInfinity's range. *)
Inductive intinf := NegInfinity | Int (z : Z) | PosInfinity.

(** The index a relative position denotes in a sequence of length [len]
    (steps 3-6 of Array.prototype.slice and String.prototype.slice). *)
Definition relative_index (len : Z) (rel : intinf) : Z :=
  match rel with
  | NegInfinity => 0
  | Int z => if (z <? 0)%Z then Z.max (len + z) 0 else Z.min z len
  | PosInfinity => len
  end.

Definition zlength {A} (l : list A) : Z := Z.of_nat (List.length l).

(** [x.slice(start, end)], for arrays and strings alike. *)
Definition slice2 {A} (start stop : intinf) (l : list A) : list A :=
  let k := relative_index (zlength l) start in
  let final := relative_index (zlength l) stop in
  firstn (Z.to_nat (final - k)) (skipn (Z.to_nat k) l).

(** [x.slice(start)]: the end defaults to the length. *)
Definition slice {A} (start : intinf) (l : list A) : list A :=
  slice2 start PosInfinity l.

(** The last [k] elements of a list that has at least [k]. *)
Definition last_n {A} (k : nat) (l : list A) : list A :=
  skipn (List.length l - k) l.

(** ** encodeURIComponent *)

Definition in_range (lo hi c : N) : bool := (N.leb lo c && N.leb c hi)%bool.

Definition is_alpha (c : N) : bool :=
  (in_range 65 90 c || in_range 97 122 c)%bool.
Definition is_digit (c : N) : bool := in_range 48 57 c.

(** uriMark: - _ . ! ~ * ' ( ) *)
Definition is_uri_mark (c : N) : bool :=
  existsb (N.eqb c) (45 :: 95 :: 46 :: 33 :: 126 :: 42 :: 39 :: 40 :: 41 :: nil)%N.

Definition uri_unreserved (c : N) : bool :=
  (is_alpha c || is_digit c || is_uri_mark c)%bool.

Definition is_lead_surrogate (c : N) : bool := in_range 55296 56319 c.   (* D800-DBFF *)
Definition is_trail_surrogate (c : N) : bool := in_range 56320 57343 c.  (* DC00-DFFF *)

Definition code_point_of_pair (lead trail : N) : N :=
  ((lead - 55296) * 1024 + (trail - 56320) + 65536)%N.

Definition utf8 (cp : N) : list N :=
  let cont n := N.lor 128 (N.land n 63) in
  if (cp <? 128)%N then [cp]
  else if (cp <? 2048)%N then [N.lor 192 (N.shiftr cp 6); cont cp]
  else if (cp <? 65536)%N then
    [N.lor 224 (N.shiftr cp 12); cont (N.shiftr cp 6); cont cp]
  else [N.lor 240 (N.shiftr cp 18); cont (N.shiftr cp 12); cont (N.shiftr cp 6); cont cp].

Definition hex_digit (n : N) : N :=
  let d := N.land n 15 in
  if (d <? 10)%N then (48 + d)%N else (55 + d)%N.

(** One octet as "%XX", upper case. *)
Definition percent_octet (b : N) : jsstring :=
  [37%N; hex_digit (N.shiftr b 4); hex_digit b].

Definition percent_encode (cp : N) : jsstring :=
  flat_map percent_octet (utf8 cp).

(** Encode(string, uriUnreserved) of ECMA-262: unreserved code units are kept,
    every other code point is written as the percent-encoded octets of its
    UTF-8 form, and an unpaired surrogate throws URIError. *)
Fixpoint encodeURIComponent (s : jsstring) : result jsstring :=
  match s with
  | [] => Ok []
  | c :: r =>
      if uri_unreserved c then rbind (encodeURIComponent r) (fun e => Ok (c :: e))
      else if is_trail_surrogate c then Throw URIError
      else if is_lead_surrogate c then
        match r with
        | d :: r' =>
            if is_trail_surrogate d then
              rbind (encodeURIComponent r')
                    (fun e => Ok (percent_encode (code_point_of_pair c d) ++ e))
            else Throw URIError
        | [] => Throw URIError
        end
      else rbind (encodeURIComponent r) (fun e => Ok (percent_encode c ++ e))
  end.

(** String.prototype.isWellFormed: no unpaired surrogate. *)
Fixpoint isWellFormed (s : jsstring) : bool :=
  match s with
  | [] => true
  | c :: r =>
      if is_trail_surrogate c then false
      else if is_lead_surrogate c then
        match r with
        | d :: r' => (is_trail_surrogate d && isWellFormed r')%bool
        | [] => false
        end
      else isWellFormed r
  end.

(** ** The job path resolver (jenkins.mjs, lines 28-33) *)

Definition slash : N := 47.
Definition newline : N := 10.

(** An encoded segment behind the job-container marker. *)
Definition marked (e : jsstring) : jsstring := lit "job/" ++ e.

Definition job_segment (s : jsstring) : result jsstring :=
  rbind (encodeURIComponent s) (fun e => Ok (marked e)).

Definition jobPath (jobName : jsstring) : result jsstring :=
  rbind (rmap job_segment (split slash jobName))
        (fun segs => Ok (join (lit "/") segs)).

(** The number of places at which [pat] occurs in [s] as a substring. *)
Fixpoint prefixb (pat s : jsstring) : bool :=
  match pat, s with
  | [], _ => true
  | p :: pat', c :: s' => (N.eqb p c && prefixb pat' s')%bool
  | _ :: _, [] => false
  end.

Fixpoint occurrences (pat s : jsstring) : nat :=
  match s with
  | [] => if prefixb pat [] then 1 else 0
  | _ :: r => (if prefixb pat s then 1 else 0) + occurrences pat r
  end.

(** ** Numbers *)

(** A Number value.  Every finite double is a rational, so the finite ones are
    taken in [Q]; which rationals are doubles plays no part below, and [-0]
    behaves as [0] in every operation the adapter applies. *)
Inductive jsnumber :=
| NaN
| Infinity (negative : bool)
| Finite (q : Q).

Definition number_truthy (n : jsnumber) : bool :=
  match n with
  | NaN => false
  | Infinity _ => true
  | Finite q => negb (Qeq_bool q 0)
  end.

(** [n > 0] *)
Definition gt_zero (n : jsnumber) : bool :=
  match n with
  | NaN => false
  | Infinity negative => negb negative
  | Finite q => negb (Qle_bool q 0)
  end.

(** Unary minus. *)
Definition negate (n : jsnumber) : jsnumber :=
  match n with
  | NaN => NaN
  | Infinity negative => Infinity (negb negative)
  | Finite q => Finite (Qopp q)
  end.

(** ToIntegerOrInfinity: NaN is 0, a finite number is truncated toward zero. *)
Definition ToIntegerOrInfinity (n : jsnumber) : intinf :=
  match n with
  | NaN => Int 0
  | Infinity true => NegInfinity
  | Infinity false => PosInfinity
  | Finite q => Int (Z.quot (Qnum q) (Z.pos (Qden q)))
  end.

(** The decimal digits of a non-negative integer, as a template literal
    prints an HTTP status. *)
Definition dec (n : N) : jsstring :=
  lit (NilZero.string_of_uint (N.to_uint n)).

(** ** Console output (jenkins.mjs, lines 145-154) *)

(** [if (tail && tail > 0) { lines = text.split("\n"); text = lines.slice(-tail).join("\n") }];
    [None] is an absent (undefined) tail. *)
Definition tail_step (tail : option jsnumber) (text : jsstring) : jsstring :=
  match tail with
  | Some t =>
      if (number_truthy t && gt_zero t)%bool then
        let lines := split newline text in
        join [newline] (slice (ToIntegerOrInfinity (negate t)) lines)
      else text
  | None => text
  end.

Definition truncation_marker : jsstring := lit "[... truncated ...]" ++ [newline].

Definition truncate_step (text : jsstring) : jsstring :=
  if (zlength text >? 100000)%Z then
    truncation_marker ++ slice (Int (-100000)) text
  else text.

Definition console_text (tail : option jsnumber) (text : jsstring) : jsstring :=
  truncate_step (tail_step tail text).

(** ** JSON values and the property reads the adapter makes *)

(** A value as JSON.parse returns it; the fields of an object are its own
    properties, one per key. *)
#[local] Set Warnings "-register-all".
Inductive json :=
| JNull
| JBool (b : bool)
| JNum (n : jsnumber)
| JStr (s : jsstring)
| JArr (items : list json)
| JObj (fields : list (jsstring * json)).

Fixpoint assoc {V} (k : jsstring) (fields : list (jsstring * V)) : option V :=
  match fields with
  | [] => None
  | (k', v) :: r => if jsstring_eqb k' k then Some v else assoc k r
  end.

(** [v.k] on a value that came out of JSON.parse, for the property names the
    adapter reads (property, parameterDefinitions, actions, parameters, name,
    value): none of them lives on a prototype, so only an own property of an
    object answers; reading a property of null throws.  [None] is undefined. *)
Definition get (v : json) (k : jsstring) : result (option json) :=
  match v with
  | JNull => Throw TypeError
  | JObj fields => Ok (assoc k fields)
  | _ => Ok None
  end.

(** ToBoolean. *)
Definition truthy (v : option json) : bool :=
  match v with
  | None | Some JNull => false
  | Some (JBool b) => b
  | Some (JNum n) => number_truthy n
  | Some (JStr s) => match s with [] => false | _ => true end
  | Some (JArr _) | Some (JObj _) => true
  end.

(** [v || []] *)
Definition or_empty (v : option json) : json :=
  match v with
  | Some x => if truthy v then x else JArr []
  | None => JArr []
  end.

(** The string iterator: one string per code point, a surrogate pair together. *)
Fixpoint code_points (s : jsstring) : list jsstring :=
  match s with
  | [] => []
  | c :: r =>
      match r with
      | d :: r' =>
          if (is_lead_surrogate c && is_trail_surrogate d)%bool
          then [c; d] :: code_points r'
          else [c] :: code_points r
      | [] => [[c]]
      end
  end.

(** What [for (const x of v)] and the spread [...v] run over: arrays and
    strings are iterable, every other JSON value throws. *)
Definition iterate (v : json) : result (list json) :=
  match v with
  | JArr items => Ok items
  | JStr s => Ok (map JStr (code_points s))
  | _ => Throw TypeError
  end.

Class Platform := {
  (** Number::toString on a finite value (the shortest digits that round-trip). *)
  double_toString : Q -> jsstring;
  (** [JSON.stringify(v)] on an object whose values are strings. *)
  JSON_stringify : json -> jsstring;
  (** [JSON.stringify(v, null, 2)] on what JSON.parse returned: the engine
      throws RangeError when the nesting exhausts its stack or the indented
      text exceeds the longest string it can hold. *)
  JSON_stringify_indent2 : json -> result jsstring;
  (** [new URLSearchParams(o).toString()], over the own properties of [o] in order. *)
  URLSearchParams_toString : list (jsstring * jsstring) -> jsstring;
  (** [Buffer.from(s).toString("base64")]. *)
  base64 : jsstring -> jsstring;
  (** The most arguments a call can be given by a spread; with more the engine
      throws RangeError (the arguments go on its stack). *)
  max_arguments : N;
  (** How deep arrays may be nested for [String(v)] to convert them; deeper,
      the engine throws RangeError (the conversion recurses on its stack). *)
  max_nesting : N
}.

Section Conversions.
Context {P : Platform}.

Definition Number_toString (n : jsnumber) : jsstring :=
  match n with
  | NaN => lit "NaN"
  | Infinity true => lit "-Infinity"
  | Infinity false => lit "Infinity"
  | Finite q => double_toString q
  end.

(** [String(v)], which is also the property key [v] denotes.  An array joins its
    elements with commas, null elements as the empty string; the conversion of
    an element that is an array recurses, and [depth] is how many arrays deep
    the engine can still go before it throws RangeError.  A plain object
    prints as [object Object] through Object.prototype.toString, unless it has
    an own toString property: what JSON.parse put there is not callable, valueOf
    gives no primitive either, and the conversion throws. *)
Fixpoint ToString_within (depth : N) (v : json) : result jsstring :=
  match v with
  | JNull => Ok (lit "null")
  | JBool true => Ok (lit "true")
  | JBool false => Ok (lit "false")
  | JNum n => Ok (Number_toString n)
  | JStr s => Ok s
  | JArr items =>
      if N.eqb depth 0 then Throw RangeError
      else
        let element x :=
          match x with
          | JNull => Ok []
          | _ => ToString_within (N.pred depth) x
          end in
        rbind ((fix elements (l : list json) : result (list jsstring) :=
                  match l with
                  | [] => Ok []
                  | x :: r =>
                      rbind (element x) (fun y =>
                      rbind (elements r) (fun ys => Ok (y :: ys)))
                  end) items)
              (fun strs => Ok (join (lit ",") strs))
  | JObj fields =>
      match assoc (lit "toString") fields with
      | Some _ => Throw TypeError
      | None => Ok (lit "[object Object]")
      end
  end.

Definition ToString (v : json) : result jsstring := ToString_within max_nesting v.

End Conversions.

(** ** Plain objects with string values *)

(** The own properties of an object in the order Object.keys, JSON.stringify
    and URLSearchParams see them: array-index keys first, ascending, then every
    other key in the order of creation. *)
Definition jsobject := list (jsstring * jsstring).

Fixpoint parse_digits (acc : N) (s : jsstring) : option N :=
  match s with
  | [] => Some acc
  | c :: r => if is_digit c then parse_digits (acc * 10 + (c - 48)) r else None
  end.

(** The array index a key denotes, if it is the canonical decimal form of an
    integer below 2^32 - 1. *)
Definition array_index (k : jsstring) : option N :=
  match parse_digits 0 k with
  | Some n =>
      if (jsstring_eqb (dec n) k && (n <? 4294967295)%N)%bool then Some n else None
  | None => None
  end.

Definition has_key (k : jsstring) (o : jsobject) : bool :=
  match assoc k o with Some _ => true | None => false end.

Fixpoint replace_value (k v : jsstring) (o : jsobject) : jsobject :=
  match o with
  | [] => []
  | (k', v') :: r =>
      if jsstring_eqb k' k then (k', v) :: r else (k', v') :: replace_value k v r
  end.

(** A new array-index key goes before the first key that is a larger index or
    no index at all. *)
Fixpoint insert_index (n : N) (k v : jsstring) (o : jsobject) : jsobject :=
  match o with
  | [] => [(k, v)]
  | (k', v') :: r =>
      match array_index k' with
      | Some n' => if (n <? n')%N then (k, v) :: o else (k', v') :: insert_index n k v r
      | None => (k, v) :: o
      end
  end.

(** CreateDataProperty: what an object literal and a spread do. *)
Definition obj_define (k v : jsstring) (o : jsobject) : jsobject :=
  if has_key k o then replace_value k v o
  else match array_index k with
       | Some n => insert_index n k v o
       | None => o ++ [(k, v)]
       end.

(** [o[k] = v] on an object created by [{}], for a string [v].  The prototype
    is Object.prototype, whose one accessor is __proto__: its setter ignores a
    value that is neither an object nor null, so that assignment leaves [o] as
    it was.  Every other key becomes (or updates) an own property. *)
Definition obj_set (k v : jsstring) (o : jsobject) : jsobject :=
  if jsstring_eqb k (lit "__proto__") then o else obj_define k v o.

(** [{...a, ...b}] *)
Definition obj_spread (a b : jsobject) : jsobject :=
  fold_left (fun o kv => obj_define (fst kv) (snd kv) o) b
            (fold_left (fun o kv => obj_define (fst kv) (snd kv) o) a []).

Definition json_of_object (o : jsobject) : json :=
  JObj (map (fun kv => (fst kv, JStr (snd kv))) o).

(** A loop whose body may throw. *)
Fixpoint rfold {A B} (f : A -> B -> result A) (l : list B) (a : A) : result A :=
  match l with
  | [] => Ok a
  | x :: r => rbind (f a x) (rfold f r)
  end.

(** ** Requests, responses and the adapter's calls *)

Record Request := {
  url : jsstring;
  method : option jsstring;             (* absent: fetch sends a GET *)
  headers : jsobject;
  body : option jsstring
}.

(** What the adapter reads of a response. *)
Record Response := {
  status : N;
  statusText : jsstring;
  location : option jsstring;           (* res.headers.get("location"); None is null *)
  res_text : option jsstring;           (* res.text(); None when reading the body fails *)
  res_json : option json                (* res.json(); None when the body is not JSON *)
}.

(** [res.ok]: the status is in the range 200-299. *)
Definition ok (res : Response) : bool := in_range 200 299 (status res).

(** The second argument of [jenkins(path, options)]. *)
Record Options := {
  opt_method : option jsstring;
  opt_headers : option jsobject;
  opt_body : option jsstring
}.

Definition no_options : Options :=
  {| opt_method := None; opt_headers := None; opt_body := None |}.

Definition post : Options :=
  {| opt_method := Some (lit "POST"); opt_headers := None; opt_body := None |}.

Definition post_form (form : jsstring) : Options :=
  {| opt_method := Some (lit "POST");
     opt_headers :=
       Some [(lit "Content-Type", lit "application/x-www-form-urlencoded")];
     opt_body := Some form |}.

(** The environment variables, read once. *)
Record Config := {
  JENKINS_URL : jsstring;
  JENKINS_USER : jsstring;
  JENKINS_TOKEN : jsstring
}.

(** The message of the error [jenkins] throws on a response that is not ok
    (line 43); a body that cannot be read counts as empty (line 42). *)
Definition error_message (res : Response) : jsstring :=
  let body := match res_text res with Some t => t | None => [] end in
  lit "Jenkins " ++ dec (status res) ++ lit " " ++ statusText res ++ lit ": "
    ++ slice2 (Int 0) (Int 500) body.

(** [res.headers.get("location") || ""] *)
Definition location_or_empty (res : Response) : jsstring :=
  match location res with Some l => l | None => [] end.

(** The tree filters of get_params (line 105) and rebuild (line 223). *)
Definition params_tree : jsstring :=
  lit "property[parameterDefinitions[name,type,defaultParameterValue[value],description,choices]]".
Definition rebuild_tree : jsstring := lit "actions[parameters[name,value]]".

(** The rebuild filter as it stands in the URL of step 1. *)
Definition encoded_rebuild_tree : jsstring :=
  lit "actions%5Bparameters%5Bname%2Cvalue%5D%5D".

(** What [jenkins] makes of the answer to its request (lines 41-45): a
    response that is ok is returned, one that is not is thrown as an error, and
    so is the rejection of fetch. *)
Definition outcome (answer : option Response) : result Response :=
  match answer with
  | None => Throw FetchFailed
  | Some res => if ok res then Ok res else Throw (Error (error_message res))
  end.

(** Every exchange of a log went well. *)
Definition all_ok (l : list (Request * option Response)) : Prop :=
  Forall (fun ex => exists res, outcome (snd ex) = Ok res) l.

(** A result agrees with a log when every exchange went well, or the last one
    failed and the result is its error. *)
Definition agrees {A} (r : result A) (l : list (Request * option Response)) : Prop :=
  all_ok l \/
  exists before req answer e,
    l = before ++ [(req, answer)] /\ all_ok before /\
    outcome answer = Throw e /\ r = Throw e.

(** The eight tools with their arguments ([None]: an optional argument left
    out; zod has already put "lastBuild" where a build has a default). *)
Inductive Call :=
| jenkins_get_job_info (job : jsstring) (tree : option jsstring)
| jenkins_get_build_info (job build : jsstring) (tree : option jsstring)
| jenkins_get_params (job : jsstring)
| jenkins_get_console_output (job build : jsstring) (tail : option jsnumber)
| jenkins_build (job : jsstring)
| jenkins_build_with_params (job : jsstring) (params : jsobject)
| jenkins_rebuild (job build : jsstring)
| jenkins_get_queue_item (queue_id : jsstring).

Section Adapter.
Context {P : Platform}.
Variable cfg : Config.

(** The server and the network: a request meets a world, which answers with a
    response, or with none when fetch rejects, and moves on. *)
Variable World : Type.
Variable fetch : Request -> World -> option Response * World.

(** A call runs against the world and leaves the requests it sent, in order,
    each with the answer it got. *)
Record State := { world : World; log : list (Request * option Response) }.

Definition sent (st : State) : list Request := map fst (log st).

Definition M (A : Type) := State -> result A * State.

Definition ret {A} (a : A) : M A := fun st => (Ok a, st).
Definition throw {A} (e : exn) : M A := fun st => (Throw e, st).
Definition bind {A B} (m : M A) (k : A -> M B) : M B :=
  fun st => match m st with
            | (Ok a, st') => k a st'
            | (Throw e, st') => (Throw e, st')
            end.
Definition lift {A} (r : result A) : M A := fun st => (r, st).

Notation "x <- m ;; k" := (bind m (fun x => k))
  (at level 61, m at next level, right associativity).

Definition send (req : Request) : M (option Response) :=
  fun st => let (answer, w) := fetch req (world st) in
            (Ok answer, {| world := w; log := log st ++ [(req, answer)] |}).

Definition authHeaders : jsobject :=
  [(lit "Authorization",
    lit "Basic " ++ base64 (JENKINS_USER cfg ++ lit ":" ++ JENKINS_TOKEN cfg))].

(** jenkins.mjs, lines 35-46. *)
Definition request_for (path : jsstring) (options : Options) : Request :=
  {| url := JENKINS_URL cfg ++ lit "/" ++ path;
     method := opt_method options;
     headers := obj_spread authHeaders
                  (match opt_headers options with
                   | Some h => h
                   | None => []
                   end);
     body := opt_body options |}.

Definition jenkins (path : jsstring) (options : Options) : M Response :=
  answer <- send (request_for path options) ;;
  match answer with
  | None => throw FetchFailed
  | Some res => if ok res then ret res else throw (Error (error_message res))
  end.

Definition json_of (res : Response) : M json :=
  match res_json res with Some v => ret v | None => throw SyntaxError end.

Definition text_of (res : Response) : M jsstring :=
  match res_text res with Some t => ret t | None => throw BodyUnreadable end.

(** [tree ? `?tree=${encodeURIComponent(tree)}` : ""] *)
Definition tree_query (tree : option jsstring) : result jsstring :=
  match tree with
  | Some (c :: t) => rbind (encodeURIComponent (c :: t)) (fun e => Ok (lit "?tree=" ++ e))
  | _ => Ok []
  end.

(** [params.push(...items)], line 113. *)
Definition spread_push (params items : list json) : result (list json) :=
  if (N.of_nat (List.length items) <=? max_arguments)%N then Ok (params ++ items)
  else Throw RangeError.

(** get_params, lines 109-115: the parameter definitions of every property
    that has some, in order. *)
Definition collect_definitions (params : list json) (prop : json) : result (list json) :=
  rbind (get prop (lit "parameterDefinitions")) (fun defs =>
  match defs with
  | Some d => if truthy defs then rbind (iterate d) (fun items => spread_push params items)
              else Ok params
  | None => Ok params
  end).

Definition parameter_definitions (data : json) : result (list json) :=
  rbind (get data (lit "property")) (fun props =>
  rbind (iterate (or_empty props)) (fun items =>
  rfold collect_definitions items [])).

(** rebuild, lines 229-236. *)
Definition extract_parameter (params : jsobject) (p : json) : result jsobject :=
  rbind (get p (lit "name")) (fun name =>
  match name with
  | Some n =>
      if truthy name then
        rbind (get p (lit "value")) (fun value =>
        match value with
        | Some v =>
            rbind (ToString n) (fun key =>
            rbind (ToString v) (fun str => Ok (obj_set key str params)))
        | None => Ok params
        end)
      else Ok params
  | None => Ok params
  end).

Definition extract_action (params : jsobject) (action : json) : result jsobject :=
  rbind (get action (lit "parameters")) (fun ps =>
  rbind (iterate (or_empty ps)) (fun items =>
  rfold extract_parameter items params)).

Definition extract_parameters (info : json) : result jsobject :=
  rbind (get info (lit "actions")) (fun actions =>
  rbind (iterate (or_empty actions)) (fun items =>
  rfold extract_action items [])).

(** The entries of the prior build's actions, in the order the two loops of
    rebuild visit them. *)
Definition action_entries (action : json) : result (list json) :=
  rbind (get action (lit "parameters")) (fun ps => iterate (or_empty ps)).

Definition recorded_entries (info : json) : result (list json) :=
  rbind (get info (lit "actions")) (fun actions =>
  rbind (iterate (or_empty actions)) (fun items =>
  rbind (rmap action_entries items) (fun groups => Ok (List.concat groups)))).

(** An entry with a name and a defined value, the key [k] its name denotes and
    the string form [s] of its value. *)
Definition qualifies (p : json) (k s : jsstring) : Prop :=
  exists n v,
    get p (lit "name") = Ok (Some n) /\ truthy (Some n) = true /\
    get p (lit "value") = Ok (Some v) /\
    ToString n = Ok k /\ ToString v = Ok s.

(** What the parameters extracted so far owe to the entries visited so far. *)
Definition extracted_from (entries : list json) (params : jsobject) : Prop :=
  assoc (lit "__proto__") params = None /\
  (forall k s, assoc k params = Some s -> exists p, In p entries /\ qualifies p k s) /\
  (forall k p s, k <> lit "__proto__" -> In p entries -> qualifies p k s ->
                 exists s', assoc k params = Some s').

(** The parameter definitions a property object carries. *)
Definition definitions_of (prop : json) : list json :=
  match prop with
  | JObj fields =>
      match assoc (lit "parameterDefinitions") fields with
      | Some (JArr defs) => defs
      | _ => []
      end
  | _ => []
  end.

(** rebuild, lines 238-249: the request of step 2. *)
Definition trigger (jp : jsstring) (params : jsobject) : M Response :=
  match params with
  | _ :: _ =>
      jenkins (jp ++ lit "/buildWithParameters")
              (post_form (URLSearchParams_toString params))
  | [] => jenkins (jp ++ lit "/build") post
  end.

(** The handler of each tool; the result is the text of its one content block. *)
Definition run (c : Call) : M jsstring :=
  match c with
  | jenkins_get_job_info job tree =>
      qs <- lift (tree_query tree) ;;
      jp <- lift (jobPath job) ;;
      res <- jenkins (jp ++ lit "/api/json" ++ qs) no_options ;;
      data <- json_of res ;;
      lift (JSON_stringify_indent2 data)
  | jenkins_get_build_info job build tree =>
      qs <- lift (tree_query tree) ;;
      jp <- lift (jobPath job) ;;
      res <- jenkins (jp ++ lit "/" ++ build ++ lit "/api/json" ++ qs) no_options ;;
      data <- json_of res ;;
      lift (JSON_stringify_indent2 data)
  | jenkins_get_params job =>
      jp <- lift (jobPath job) ;;
      t <- lift (encodeURIComponent params_tree) ;;
      res <- jenkins (jp ++ lit "/api/json?tree=" ++ t) no_options ;;
      data <- json_of res ;;
      params <- lift (parameter_definitions data) ;;
      match params with
      | [] => ret (lit "This job has no parameters defined.")
      | _ => lift (JSON_stringify_indent2 (JArr params))
      end
  | jenkins_get_console_output job build tail =>
      jp <- lift (jobPath job) ;;
      res <- jenkins (jp ++ lit "/" ++ build ++ lit "/consoleText") no_options ;;
      text <- text_of res ;;
      ret (console_text tail text)
  | jenkins_build job =>
      jp <- lift (jobPath job) ;;
      res <- jenkins (jp ++ lit "/build") post ;;
      let location := location_or_empty res in
      ret (lit "Build triggered successfully." ++ [newline]
           ++ lit "Queue URL: " ++ location ++ [newline]
           ++ lit "Poll " ++ location
           ++ lit "api/json to get the build number once scheduled.")
  | jenkins_build_with_params job params =>
      let form := URLSearchParams_toString params in
      jp <- lift (jobPath job) ;;
      res <- jenkins (jp ++ lit "/buildWithParameters") (post_form form) ;;
      let location := location_or_empty res in
      ret (lit "Build triggered with parameters: "
           ++ JSON_stringify (json_of_object params) ++ [newline]
           ++ lit "Queue URL: " ++ location)
  | jenkins_rebuild job build =>
      jp <- lift (jobPath job) ;;
      t <- lift (encodeURIComponent rebuild_tree) ;;
      infoRes <- jenkins (jp ++ lit "/" ++ build ++ lit "/api/json?tree=" ++ t) no_options ;;
      info <- json_of infoRes ;;
      params <- lift (extract_parameters info) ;;
      jp2 <- lift (jobPath job) ;;
      res <- trigger jp2 params ;;
      let location := location_or_empty res in
      ret (lit "Rebuild of #" ++ build ++ lit " triggered." ++ [newline]
           ++ lit "Extracted parameters: "
           ++ JSON_stringify (json_of_object params) ++ [newline]
           ++ lit "Queue URL: " ++ location)
  | jenkins_get_queue_item queue_id =>
      res <- jenkins (lit "queue/item/" ++ queue_id ++ lit "/api/json") no_options ;;
      data <- json_of res ;;
      lift (JSON_stringify_indent2 data)
  end.

Definition start (w : World) : State := {| world := w; log := [] |}.

(** The requests of rebuild: the read of step 1 and the trigger of step 2. *)
Definition info_request (jp build t : jsstring) : Request :=
  request_for (jp ++ lit "/" ++ build ++ lit "/api/json?tree=" ++ t) no_options.

Definition parameterized_request (jp : jsstring) (params : jsobject) : Request :=
  request_for (jp ++ lit "/buildWithParameters")
              (post_form (URLSearchParams_toString params)).

Definition plain_request (jp : jsstring) : Request :=
  request_for (jp ++ lit "/build") post.

(** A computation that keeps result and log in agreement. *)
Definition careful {A} (m : M A) : Prop :=
  forall st, all_ok (log st) -> agrees (fst (m st)) (log (snd (m st))).

End Adapter.

(** ** A platform and a server to run the adapter on concrete inputs

    The theorems below hold for every platform and every server; the examples
    need one of each.  The conversions of this platform are exact on what the
    examples give them: integers, and keys and values made of letters and
    digits. *)

Definition sample_double_toString (q : Q) : jsstring :=
  let z := Z.quot (Qnum q) (Z.pos (Qden q)) in
  (if (z <? 0)%Z then lit "-" else []) ++ dec (Z.abs_N z).

Definition sample_form (o : jsobject) : jsstring :=
  join (lit "&") (map (fun kv => fst kv ++ lit "=" ++ snd kv) o).

Fixpoint sample_stringify (v : json) : jsstring :=
  match v with
  | JNull => lit "null"
  | JBool true => lit "true"
  | JBool false => lit "false"
  | JNum (Finite q) => sample_double_toString q
  | JNum _ => lit "null"
  | JStr s => [34%N] ++ s ++ [34%N]
  | JArr items => lit "[" ++ join (lit ",") (map sample_stringify items) ++ lit "]"
  | JObj fields =>
      lit "{"
      ++ join (lit ",")
           (map (fun kv => [34%N] ++ fst kv ++ [34%N] ++ lit ":" ++ sample_stringify (snd kv))
                fields)
      ++ lit "}"
  end.

#[export] Instance sample_platform : Platform := {|
  double_toString := sample_double_toString;
  JSON_stringify := sample_stringify;
  JSON_stringify_indent2 := fun v => Ok (sample_stringify v);
  URLSearchParams_toString := sample_form;
  base64 := fun s => s;
  max_arguments := 120000;
  max_nesting := 4000
|}.

Definition sample_config : Config :=
  {| JENKINS_URL := lit "https://ci.example.com";
     JENKINS_USER := lit "user";
     JENKINS_TOKEN := lit "token" |}.

(** A server that answers from a script, one entry per request, whatever the
    request; when the script is over, fetch rejects. *)
Definition scripted (req : Request) (script : list (option Response))
  : option Response * list (option Response) :=
  match script with
  | answer :: rest => (answer, rest)
  | [] => (None, [])
  end.

Definition response (code : N) (reason : string) (loc : option jsstring)
    (text : jsstring) (data : option json) : Response :=
  {| status := code; statusText := lit reason; location := loc;
     res_text := Some text; res_json := data |}.

Definition parameter_entry (name value : string) : json :=
  JObj [(lit "name", JStr (lit name)); (lit "value", JStr (lit value))].

(** A prior build recorded with the parameters A = 1 and B = 2, as the server
    reports it under the rebuild filter. *)
Definition sample_info : json :=
  JObj [(lit "actions",
         JArr [JObj [(lit "parameters",
                      JArr [parameter_entry "A" "1"; parameter_entry "B" "2"])];
               JObj []])].

(** A prior build whose actions name the parameter A twice. *)
Definition twice_named_info : json :=
  JObj [(lit "actions",
         JArr [JObj [(lit "parameters", JArr [parameter_entry "A" "1"])];
               JObj [(lit "parameters",
                      JArr [parameter_entry "A" "2"; parameter_entry "B" "3"])]])].

Definition sample_queue_url : jsstring := lit "https://ci.example.com/queue/item/3/".

Definition created : Response :=
  response 201 "Created" (Some sample_queue_url) [] None.

Definition not_found : Response :=
  response 404 "Not Found" None (lit "no such job") None.

(** ** Configuration (jenkins.mjs, lines 18-20) *)

(** [s.replace(/\/+$/, "")]: the pattern matches a run of slashes that ends the
    string, and the leftmost such match is the whole final run. *)
Fixpoint strip_trailing_slashes (s : jsstring) : jsstring :=
  match s with
  | [] => []
  | c :: r =>
      match strip_trailing_slashes r with
      | [] => if N.eqb c slash then [] else [c]
      | kept => c :: kept
      end
  end.

(** [process.env.X || ""]; [None] is a variable that is not set. *)
Definition env_or_empty (v : option jsstring) : jsstring :=
  match v with Some s => s | None => [] end.

Definition config_of_env (url user token : option jsstring) : Config :=
  {| JENKINS_URL := strip_trailing_slashes (env_or_empty url);
     JENKINS_USER := env_or_empty user;
     JENKINS_TOKEN := env_or_empty token |}.

(** ** Notions the further properties are stated with *)

(** The code units a resolved job path is made of: the unreserved ones, the
    percent sign and the slash. *)
Definition path_char (c : N) : bool :=
  (uri_unreserved c || N.eqb c 37 || N.eqb c slash)%bool.

(** A string whose every element is a UTF-16 code unit. *)
Definition code_units (s : jsstring) : Prop := Forall (fun c => (c < 65536)%N) s.

(** The tools that only read from the server. *)
Definition reads_only (c : Call) : bool :=
  match c with
  | jenkins_get_job_info _ _ | jenkins_get_build_info _ _ _
  | jenkins_get_params _ | jenkins_get_console_output _ _ _
  | jenkins_get_queue_item _ => true
  | jenkins_build _ | jenkins_build_with_params _ _ | jenkins_rebuild _ _ => false
  end.

(** The job a call names, if it names one. *)
Definition job_of (c : Call) : option jsstring :=
  match c with
  | jenkins_get_job_info job _ | jenkins_get_build_info job _ _
  | jenkins_get_params job | jenkins_get_console_output job _ _
  | jenkins_build job | jenkins_build_with_params job _
  | jenkins_rebuild job _ => Some job
  | jenkins_get_queue_item _ => None
  end.

(** The most requests a call can send. *)
Definition request_budget (c : Call) : nat :=
  match c with
  | jenkins_rebuild _ _ => 2
  | _ => 1
  end.

Section Authorized.
Context {P : Platform}.
Variable cfg : Config.

(** A request with the Authorization header of line 24 under the base of
    line 36. *)
Definition authorized (req : Request) : Prop :=
  assoc (lit "Authorization") (headers req)
  = Some (lit "Basic " ++ base64 (JENKINS_USER cfg ++ lit ":" ++ JENKINS_TOKEN cfg)) /\
  exists path, url req = JENKINS_URL cfg ++ lit "/" ++ path.

End Authorized.

Section Growth.
Variable World : Type.

(** A computation that adds at most [n] exchanges to the log, takes none
    away, and sends only requests that satisfy [R]. *)
Definition grows_by (n : nat) (R : Request -> Prop) {A} (m : M World A) : Prop :=
  forall st, exists more,
    log (snd (m st)) = log st ++ more /\
    List.length more <= n /\
    Forall (fun ex => R (fst ex)) more.

End Growth.

(** The code units of a code point (String.fromCodePoint). *)
Definition units_of (cp : N) : jsstring :=
  if (cp <? 65536)%N then [cp]
  else [55296 + (cp - 65536) / 1024; 56320 + (cp - 65536) mod 1024]%N.

(** The tree filter a call takes from its caller. *)
Definition tree_of (c : Call) : option jsstring :=
  match c with
  | jenkins_get_job_info _ tree => tree
  | jenkins_get_build_info _ _ tree => tree
  | _ => None
  end.

(** The characters of an encoded query value. *)
Definition value_char (c : N) : bool := (uri_unreserved c || N.eqb c 37)%bool.

(** A property of the job that get_params passes over or collects from
    without failing: an object whose parameterDefinitions is absent or falsy,
    or an array short enough to be spread. *)
Definition spreadable {P : Platform} (prop : json) : Prop :=
  exists fields, prop = JObj fields /\
    (truthy (assoc (lit "parameterDefinitions") fields) = false \/
     exists defs, assoc (lit "parameterDefinitions") fields = Some (JArr defs) /\
                  (N.of_nat (List.length defs) <= max_arguments)%N).

(** Arrays nested [n] deep around an empty one. *)
Fixpoint nested (n : nat) : json :=
  match n with
  | O => JArr []
  | S k => JArr [nested k]
  end.

(** The two ways the reading of a prior build fails. *)
Definition type_or_range (e : exn) : Prop := e = TypeError \/ e = RangeError.

(** The query a tree filter gives (lines 68 and 89): nothing when the filter
    is absent or the empty string, else ?tree= and its encoded form, made of
    unreserved characters and percent signs. *)
Definition query_of (tree : option jsstring) (qs : jsstring) : Prop :=
  (qs = [] <-> tree = None \/ tree = Some []) /\
  (qs <> [] ->
   exists t e, tree = Some t /\ encodeURIComponent t = Ok e /\
               qs = lit "?tree=" ++ e /\ e <> [] /\
               forallb value_char e = true).

(** * Properties *)

Unset Implicit Arguments.

(** ** split and join *)

Lemma split_not_nil c s : split c s <> [].
Proof.
  destruct s as [|x r]; simpl; [discriminate|].
  destruct (N.eqb x c); [discriminate|].
  destruct (split c r); discriminate.
Qed.

Lemma split_cons_sep c r : split c (c :: r) = [] :: split c r.
Proof. simpl. now rewrite N.eqb_refl. Qed.

Lemma split_cons_other c x r :
  x <> c ->
  exists h t, split c r = h :: t /\ split c (x :: r) = (x :: h) :: t.
Proof.
  intros Hx. simpl. apply N.eqb_neq in Hx. rewrite Hx.
  destruct (split c r) as [|h t] eqn:E.
  - now apply split_not_nil in E.
  - now exists h, t.
Qed.

(** Joining the pieces with the separator gives the string back. *)
Lemma join_split c s : join [c] (split c s) = s.
Proof.
  induction s as [|x r IH].
  - reflexivity.
  - destruct (N.eq_dec x c) as [->|Hx].
    + rewrite split_cons_sep.
      destruct (split c r) as [|h t] eqn:E; [now apply split_not_nil in E|].
      simpl in *. now rewrite IH.
    + destruct (split_cons_other c x r Hx) as (h & t & E & ->).
      rewrite E in IH. destruct t; simpl in *; now rewrite IH.
Qed.

Lemma split_without c s : ~ In c s -> split c s = [s].
Proof.
  induction s as [|x r IH]; intros Hc; [reflexivity|].
  simpl in *. destruct (N.eqb_spec x c) as [->|_]; [tauto|].
  rewrite IH by tauto. reflexivity.
Qed.

Lemma split_app c a b : split c (a ++ c :: b) = split c a ++ split c b.
Proof.
  induction a as [|x r IH].
  - apply split_cons_sep.
  - destruct (N.eq_dec x c) as [->|Hx].
    + simpl. rewrite N.eqb_refl. now rewrite IH.
    + destruct (split_cons_other c x r Hx) as (h & t & E & E').
      rewrite E'. simpl app at 1.
      destruct (split_cons_other c x (r ++ c :: b) Hx) as (h' & t' & F & ->).
      rewrite IH, E in F. simpl in F. now inversion F.
Qed.

Lemma join_cons sep x l : l <> [] -> join sep (x :: l) = x ++ sep ++ join sep l.
Proof. destruct l; [congruence|reflexivity]. Qed.

Lemma join_app sep l1 l2 :
  l1 <> [] -> l2 <> [] ->
  join sep (l1 ++ l2) = join sep l1 ++ sep ++ join sep l2.
Proof.
  intros H1 H2. induction l1 as [|x l IH]; [congruence|].
  destruct l as [|y l].
  - simpl app. now rewrite join_cons.
  - change ((x :: y :: l) ++ l2) with (x :: ((y :: l) ++ l2)).
    rewrite join_cons by discriminate.
    rewrite IH by discriminate.
    rewrite (join_cons sep x (y :: l)) by discriminate.
    now rewrite <- !app_assoc.
Qed.

(** ** slice *)

Lemma slice_as_skipn {A} (z : Z) (l : list A) :
  slice (Int z) l = skipn (Z.to_nat (relative_index (zlength l) (Int z))) l.
Proof.
  unfold slice, slice2. cbv zeta.
  set (k := relative_index (zlength l) (Int z)).
  change (relative_index (zlength l) PosInfinity) with (zlength l).
  apply firstn_all2. rewrite length_skipn.
  assert (0 <= k <= zlength l)%Z.
  { unfold k, relative_index, zlength.
    destruct (Z.ltb_spec z 0); lia. }
  unfold zlength in *. lia.
Qed.

Lemma slice_negative {A} (k : Z) (l : list A) :
  (0 < k <= zlength l)%Z ->
  slice (Int (- k)) l = last_n (Z.to_nat k) l.
Proof.
  intros Hk. rewrite slice_as_skipn. unfold last_n. f_equal.
  unfold relative_index, zlength in *.
  destruct (Z.ltb_spec (- k) 0); lia.
Qed.

Lemma last_n_length {A} (k : nat) (l : list A) :
  k <= List.length l -> List.length (last_n k l) = k.
Proof. intros H. unfold last_n. rewrite length_skipn. lia. Qed.

Lemma last_n_suffix {A} (k : nat) (l : list A) :
  l = firstn (List.length l - k) l ++ last_n k l.
Proof. unfold last_n. now rewrite firstn_skipn. Qed.

Lemma slice2_prefix {A} (n : Z) (l : list A) :
  (0 <= n)%Z -> slice2 (Int 0) (Int n) l = firstn (Z.to_nat n) l.
Proof.
  intros Hn. unfold slice2, relative_index, zlength.
  change (0 <? 0)%Z with false. cbv iota zeta.
  destruct (Z.ltb_spec n 0); [lia|].
  rewrite (Z.min_l 0) by lia. rewrite Z.sub_0_r. simpl skipn.
  destruct (Z.le_ge_cases n (Z.of_nat (List.length l))).
  - now rewrite Z.min_l.
  - rewrite Z.min_r, Nat2Z.id by assumption.
    rewrite !firstn_all2; [reflexivity | lia | lia].
Qed.

(** ** encodeURIComponent *)

Ltac bool_to_prop H :=
  repeat rewrite ?orb_true_iff, ?andb_true_iff, ?N.leb_le, ?N.eqb_eq in H.

Lemma unreserved_not_surrogate c :
  uri_unreserved c = true ->
  is_trail_surrogate c = false /\ is_lead_surrogate c = false.
Proof.
  unfold uri_unreserved, is_alpha, is_digit, is_uri_mark, is_trail_surrogate,
    is_lead_surrogate, in_range. simpl existsb. intros H.
  bool_to_prop H.
  split; apply not_true_iff_false; intros G; bool_to_prop G; lia.
Qed.

Lemma unreserved_not_slash c : uri_unreserved c = true -> c <> slash.
Proof. intros H ->. discriminate H. Qed.

Lemma hex_digit_not_slash n : hex_digit n <> slash.
Proof.
  unfold hex_digit, slash. cbv zeta.
  destruct (N.land n 15 <? 10)%N; lia.
Qed.

Lemma percent_encode_no_slash cp : ~ In slash (percent_encode cp).
Proof.
  unfold percent_encode. rewrite in_flat_map. intros (b & _ & Hb).
  simpl in Hb. destruct Hb as [Hb|[Hb|[Hb|[]]]].
  - discriminate.
  - now apply hex_digit_not_slash in Hb.
  - now apply hex_digit_not_slash in Hb.
Qed.

(** The two facts about the encoder the resolver rests on, for all strings up
    to a given length (the encoder steps over one or two code units). *)
Lemma encodeURIComponent_bounded n :
  forall s, List.length s <= n ->
    (isWellFormed s = true -> exists e, encodeURIComponent s = Ok e) /\
    (isWellFormed s = false -> encodeURIComponent s = Throw URIError) /\
    (forall e, encodeURIComponent s = Ok e -> ~ In slash e).
Proof.
  induction n as [|n IH]; intros s Hlen.
  - destruct s; [|simpl in Hlen; lia]. simpl. repeat split.
    + now exists [].
    + discriminate.
    + intros e [= <-]. tauto.
  - destruct s as [|c r]; [apply IH; simpl; lia|].
    simpl in Hlen.
    assert (Hr : List.length r <= n) by lia.
    destruct (IH r Hr) as (Hwf & Hill & Hns).
    simpl encodeURIComponent. simpl isWellFormed.
    destruct (uri_unreserved c) eqn:Hu.
    + destruct (unreserved_not_surrogate c Hu) as [-> ->].
      repeat split.
      * intros W. destruct (Hwf W) as (e & ->). now eexists.
      * intros W. now rewrite (Hill W).
      * intros e He. destruct (encodeURIComponent r) as [e'|]; [|discriminate].
        injection He as <-. intros [Hc|Hin].
        -- now apply (unreserved_not_slash c Hu).
        -- now apply (Hns e' eq_refl).
    + destruct (is_trail_surrogate c); [repeat split; discriminate|].
      destruct (is_lead_surrogate c).
      * destruct r as [|d r']; [repeat split; discriminate|].
        destruct (is_trail_surrogate d); [|repeat split; discriminate].
        assert (Hr' : List.length r' <= n) by (simpl in Hr; lia).
        destruct (IH r' Hr') as (Hwf' & Hill' & Hns').
        simpl andb. repeat split.
        -- intros W. destruct (Hwf' W) as (e & ->). now eexists.
        -- intros W. now rewrite (Hill' W).
        -- intros e He. destruct (encodeURIComponent r') as [e'|]; [|discriminate].
           injection He as <-. rewrite in_app_iff. intros [Hin|Hin].
           ++ now apply percent_encode_no_slash in Hin.
           ++ now apply (Hns' e' eq_refl).
      * repeat split.
        -- intros W. destruct (Hwf W) as (e & ->). now eexists.
        -- intros W. now rewrite (Hill W).
        -- intros e He. destruct (encodeURIComponent r) as [e'|]; [|discriminate].
           injection He as <-. rewrite in_app_iff. intros [Hin|Hin].
           ++ now apply percent_encode_no_slash in Hin.
           ++ now apply (Hns e' eq_refl).
Qed.

Lemma encodeURIComponent_well_formed s :
  isWellFormed s = true -> exists e, encodeURIComponent s = Ok e.
Proof. apply (encodeURIComponent_bounded (List.length s)). lia. Qed.

Lemma encodeURIComponent_ill_formed s :
  isWellFormed s = false -> encodeURIComponent s = Throw URIError.
Proof. apply (encodeURIComponent_bounded (List.length s)). lia. Qed.

Lemma encodeURIComponent_no_slash s e :
  encodeURIComponent s = Ok e -> ~ In slash e.
Proof. apply (encodeURIComponent_bounded (List.length s)). lia. Qed.

(** ** The job path resolver *)

Lemma rmap_job_segment segs :
  Forall (fun seg => isWellFormed seg = true) segs ->
  exists encs,
    Forall2 (fun seg e => encodeURIComponent seg = Ok e) segs encs /\
    rmap job_segment segs = Ok (map marked encs).
Proof.
  induction 1 as [|seg segs Hseg _ (encs & Hall & Hmap)].
  - exists []. split; [constructor|reflexivity].
  - destruct (encodeURIComponent_well_formed seg Hseg) as (e & He).
    exists (e :: encs). split; [now constructor|].
    simpl. unfold job_segment at 1. rewrite He. simpl. now rewrite Hmap.
Qed.

Lemma rmap_job_segment_throws segs :
  Exists (fun seg => isWellFormed seg = false) segs ->
  rmap job_segment segs = Throw URIError.
Proof.
  induction 1 as [seg segs Hseg|seg segs _ IH].
  - simpl. unfold job_segment.
    now rewrite (encodeURIComponent_ill_formed seg Hseg).
  - simpl. rewrite IH. unfold job_segment.
    destruct (isWellFormed seg) eqn:W.
    + now destruct (encodeURIComponent_well_formed seg W) as (e & ->).
    + now rewrite (encodeURIComponent_ill_formed seg W).
Qed.

(** Cutting a resolved path at its slashes gives back, in turn, the word job
    and one encoded segment, for every segment. *)
Lemma split_marked_join encs :
  encs <> [] ->
  Forall (fun e => ~ In slash e) encs ->
  split slash (join (lit "/") (map marked encs))
  = flat_map (fun e => [lit "job"; e]) encs.
Proof.
  intros Hne Hall. induction Hall as [|e encs He Hall IH]; [congruence|].
  destruct encs as [|e' encs].
  - change (join (lit "/") (map marked [e])) with (lit "job" ++ slash :: e).
    rewrite split_app, (split_without slash e He). reflexivity.
  - change (map marked (e :: e' :: encs)) with (marked e :: map marked (e' :: encs)).
    rewrite join_cons by discriminate.
    change (marked e ++ lit "/" ++ join (lit "/") (map marked (e' :: encs)))
      with (lit "job" ++ slash :: (e ++ slash :: join (lit "/") (map marked (e' :: encs)))).
    rewrite split_app, split_app, (split_without slash e He), IH by discriminate.
    reflexivity.
Qed.

(** C2, as amended.  For a job identifier whose slash-separated segments are
    well-formed UTF-16, the resolver returns the segments' percent-encoded
    forms, each prefixed with job/, joined with slashes: one marked piece per
    segment, in order.  Cut at its slashes the path reads job, e1, job, e2, ...,
    so each of the N markers is followed by the encoded form of its segment. *)
Theorem jobPath_resolves (jobName : jsstring) :
  forallb isWellFormed (split slash jobName) = true ->
  exists encs,
    Forall2 (fun seg e => encodeURIComponent seg = Ok e) (split slash jobName) encs /\
    List.length encs = List.length (split slash jobName) /\
    jobPath jobName = Ok (join (lit "/") (map marked encs)) /\
    split slash (join (lit "/") (map marked encs))
    = flat_map (fun e => [lit "job"; e]) encs.
Proof.
  intros Hwf. rewrite forallb_forall, <- Forall_forall in Hwf.
  destruct (rmap_job_segment _ Hwf) as (encs & Hall & Hmap).
  exists encs. split; [exact Hall|].
  split; [symmetry; exact (Forall2_length Hall)|].
  split.
  - unfold jobPath. now rewrite Hmap.
  - apply split_marked_join.
    + intros ->. inversion Hall as [Hnil|]. symmetry in Hnil.
      now apply split_not_nil in Hnil.
    + clear Hmap Hwf. induction Hall as [|seg e segs encs He _ IH]; constructor.
      * exact (encodeURIComponent_no_slash seg e He).
      * exact IH.
Qed.

Lemma jobPath_resolves_witness :
  exists encs,
    Forall2 (fun seg e => encodeURIComponent seg = Ok e)
            (split slash (lit "team a/deploy")) encs /\
    List.length encs = List.length (split slash (lit "team a/deploy")) /\
    jobPath (lit "team a/deploy") = Ok (join (lit "/") (map marked encs)) /\
    split slash (join (lit "/") (map marked encs))
    = flat_map (fun e => [lit "job"; e]) encs.
Proof.
  apply (jobPath_resolves (lit "team a/deploy")).
  vm_compute. reflexivity.
Defined.

(** The empty identifier has one empty segment and resolves to the bare marker. *)
Lemma jobPath_empty : jobPath [] = Ok (lit "job/").
Proof. reflexivity. Qed.

(** A segment with an unpaired surrogate makes the resolver throw. *)
Lemma jobPath_ill_formed (jobName : jsstring) :
  Exists (fun seg => isWellFormed seg = false) (split slash jobName) ->
  jobPath jobName = Throw URIError.
Proof. intros H. unfold jobPath. now rewrite (rmap_job_segment_throws _ H). Qed.

Lemma jobPath_lone_surrogate : jobPath [55296%N] = Throw URIError.
Proof. reflexivity. Qed.

(** C2, as stated, fails: the identifier job/x has two segments, and its path
    holds the marker three times, whether one counts the places where job/
    stands in the text or the pieces between slashes that read job. *)
Lemma jobPath_marker_count_counterexample :
  jobPath (lit "job/x") = Ok (lit "job/job/job/x") /\
  List.length (split slash (lit "job/x")) = 2 /\
  occurrences (lit "job/") (lit "job/job/job/x") = 3 /\
  count_occ (list_eq_dec N.eq_dec) (split slash (lit "job/job/job/x")) (lit "job") = 3.
Proof. repeat split. Qed.

(** A segment that merely ends in job does the same to the text count. *)
Lemma jobPath_marker_in_segment :
  jobPath (lit "myjob/x") = Ok (lit "job/myjob/job/x") /\
  occurrences (lit "job/") (lit "job/myjob/job/x") = 3.
Proof. repeat split. Qed.

(** ** Console output: the tail step *)

Lemma positive_number_truthy q : (0 < q)%Q -> number_truthy (Finite q) = true.
Proof.
  intros Hq. unfold number_truthy.
  destruct (Qeq_bool q 0) eqn:E; [|reflexivity].
  apply Qeq_bool_iff in E. rewrite E in Hq. now apply Qlt_irrefl in Hq.
Qed.

Lemma gt_zero_finite q : gt_zero (Finite q) = true <-> (0 < q)%Q.
Proof.
  unfold gt_zero. rewrite negb_true_iff.
  split.
  - intros E. apply Qnot_le_lt. intros Hle.
    apply Qle_bool_iff in Hle. congruence.
  - intros Hq. destruct (Qle_bool q 0) eqn:E; [|reflexivity].
    apply Qle_bool_iff in E. now apply Qlt_not_le in Hq.
Qed.

Lemma slice_neg_infinity {A} (l : list A) : slice NegInfinity l = l.
Proof.
  unfold slice, slice2, relative_index, zlength. simpl skipn.
  rewrite Z.sub_0_r, Nat2Z.id. apply firstn_all.
Qed.

Lemma join_skipn_suffix sep (l : list jsstring) n :
  exists dropped, join sep l = dropped ++ join sep (skipn n l).
Proof.
  destruct (Nat.eq_dec n 0) as [->|Hn]; [now exists []|].
  destruct (Nat.le_gt_cases (List.length l) n) as [Hlen|Hlen].
  - rewrite skipn_all2 by assumption. exists (join sep l). now rewrite app_nil_r.
  - exists (join sep (firstn n l) ++ sep).
    replace (join sep l) with (join sep (firstn n l ++ skipn n l))
      by now rewrite firstn_skipn.
    rewrite join_app, <- app_assoc; [reflexivity| |].
    + intros E. apply (f_equal (@List.length _)) in E.
      rewrite length_firstn in E. simpl in E. lia.
    + intros E. apply (f_equal (@List.length _)) in E.
      rewrite length_skipn in E. simpl in E. lia.
Qed.

(** Whatever the tail, the tail step leaves an end piece of the console text. *)
Lemma tail_step_suffix tail text :
  exists dropped, text = dropped ++ tail_step tail text.
Proof.
  unfold tail_step.
  destruct tail as [t|]; [|now exists []].
  destruct (number_truthy t && gt_zero t)%bool; [|now exists []].
  pattern text at 1. rewrite <- (join_split newline text).
  destruct (ToIntegerOrInfinity (negate t)) as [|z|].
  - rewrite slice_neg_infinity. now exists [].
  - rewrite slice_as_skipn. apply join_skipn_suffix.
  - unfold slice, slice2, relative_index.
    rewrite Z.sub_diag. simpl firstn.
    exists (join [newline] (split newline text)). now rewrite app_nil_r.
Qed.

(** C4, as amended.  For a whole tail count K of at least one and a console
    text of more than K lines, the tail step returns the last K lines joined
    with newlines, and that is the end of the original text, right after the
    newline that closes the lines before. *)
Theorem tail_step_last_lines (K : Z) (text : jsstring) :
  (1 <= K)%Z ->
  (K < zlength (split newline text))%Z ->
  let lines := split newline text in
  let kept := last_n (Z.to_nat K) lines in
  tail_step (Some (Finite (inject_Z K))) text = join [newline] kept /\
  List.length kept = Z.to_nat K /\
  text = join [newline] (firstn (List.length lines - Z.to_nat K) lines)
           ++ [newline] ++ join [newline] kept.
Proof.
  intros HK HM lines kept. unfold zlength in HM. fold lines in HM.
  assert (Hpos : (0 < inject_Z K)%Q).
  { unfold Qlt, inject_Z. simpl. lia. }
  assert (Hkept : List.length kept = Z.to_nat K).
  { apply last_n_length. lia. }
  split; [|split; [exact Hkept|]].
  - unfold tail_step.
    rewrite (positive_number_truthy _ Hpos), (proj2 (gt_zero_finite _) Hpos).
    simpl andb. cbv iota.
    unfold negate, ToIntegerOrInfinity, inject_Z, Qopp. simpl Qnum. simpl Qden.
    rewrite Z.quot_1_r. fold lines.
    apply f_equal. apply slice_negative. unfold zlength. lia.
  - pattern text at 1. rewrite <- (join_split newline text). fold lines.
    pattern lines at 1. rewrite (last_n_suffix (Z.to_nat K) lines). fold kept.
    apply join_app.
    + intros E. apply (f_equal (@List.length _)) in E.
      rewrite length_firstn in E. simpl in E. lia.
    + intros E. rewrite E in Hkept. simpl in Hkept. lia.
Qed.

Lemma tail_step_last_lines_witness :
  let text := lit "one" ++ [newline] ++ lit "two" ++ [newline] ++ lit "three" in
  tail_step (Some (Finite (inject_Z 2))) text
  = lit "two" ++ [newline] ++ lit "three".
Proof.
  intros text.
  assert (H1 : (1 <= 2)%Z) by lia.
  assert (H2 : (2 < zlength (split newline text))%Z) by (vm_compute; reflexivity).
  exact (proj1 (tail_step_last_lines 2 text H1 H2)).
Defined.

(** C4, as stated, fails for K = 0: a log of two lines has more than zero
    lines, and the tail step returns all of it, not its last zero lines. *)
Lemma tail_zero_counterexample :
  let text := lit "a" ++ [newline] ++ lit "b" in
  (0 < zlength (split newline text))%Z /\
  tail_step (Some (Finite (inject_Z 0))) text = text /\
  join [newline] (last_n 0 (split newline text)) = [] /\
  tail_step (Some (Finite (inject_Z 0))) text
  <> join [newline] (last_n 0 (split newline text)).
Proof. vm_compute. repeat split. discriminate. Qed.

(** C10.  An absent tail, NaN, zero, a negative number and negative infinity
    leave the console text as it is; a number above zero selects lines, from
    the position [-tail] that slice computes (positive infinity selects them
    all, which gives the text back). *)
Theorem tail_step_only_when_positive (text : jsstring) :
  tail_step None text = text /\
  tail_step (Some NaN) text = text /\
  tail_step (Some (Infinity true)) text = text /\
  (forall q, (q <= 0)%Q -> tail_step (Some (Finite q)) text = text) /\
  (forall q, (0 < q)%Q ->
     tail_step (Some (Finite q)) text
     = join [newline] (slice (ToIntegerOrInfinity (negate (Finite q)))
                             (split newline text))) /\
  tail_step (Some (Infinity false)) text = text.
Proof.
  split; [reflexivity|]. split; [reflexivity|]. split; [reflexivity|].
  split; [|split].
  - intros q Hq. unfold tail_step.
    destruct (gt_zero (Finite q)) eqn:E.
    + apply gt_zero_finite in E. now apply Qlt_not_le in E.
    + now rewrite andb_false_r.
  - intros q Hq. unfold tail_step.
    now rewrite (positive_number_truthy _ Hq), (proj2 (gt_zero_finite _) Hq).
  - unfold tail_step. simpl. rewrite slice_neg_infinity. apply join_split.
Qed.

Lemma tail_step_only_when_positive_witness :
  tail_step (Some (Finite (-3 # 1))) (lit "a" ++ [newline] ++ lit "b")
  = lit "a" ++ [newline] ++ lit "b".
Proof.
  assert (H : (-3 # 1 <= 0)%Q) by (vm_compute; discriminate).
  exact (proj1 (proj2 (proj2 (proj2
           (tail_step_only_when_positive (lit "a" ++ [newline] ++ lit "b")))))
           (-3 # 1)%Q H).
Defined.

(** ** Console output: truncation *)

Lemma last_n_app {A} (k : nat) (dropped l : list A) :
  k <= List.length l -> last_n k (dropped ++ l) = last_n k l.
Proof.
  intros Hk. unfold last_n. rewrite length_app, skipn_app.
  replace (List.length dropped + List.length l - k - List.length dropped)
    with (List.length l - k) by lia.
  rewrite skipn_all2 by lia. reflexivity.
Qed.

Lemma truncate_step_long (text : jsstring) :
  (100000 < zlength text)%Z ->
  truncate_step text = truncation_marker ++ last_n (Z.to_nat 100000) text.
Proof.
  intros Hlen. unfold truncate_step.
  destruct (Z.gtb_spec (zlength text) 100000) as [_|Hle]; [|lia].
  apply f_equal. apply (slice_negative 100000). lia.
Qed.

Lemma truncate_step_short (text : jsstring) :
  (zlength text <= 100000)%Z -> truncate_step text = text.
Proof.
  intros Hlen. unfold truncate_step.
  destruct (Z.gtb_spec (zlength text) 100000) as [Hgt|_]; [lia|reflexivity].
Qed.

(** With a tail as well, the truncation step sees what the tail step left, an
    end piece of the console output: when that is above 100,000 code units the
    result still ends with the last 100,000 code units of the whole output. *)
Lemma console_text_long tail text :
  (100000 < zlength (tail_step tail text))%Z ->
  console_text tail text = truncation_marker ++ last_n (Z.to_nat 100000) text.
Proof.
  intros Hlen. unfold console_text.
  rewrite (truncate_step_long _ Hlen). apply f_equal.
  destruct (tail_step_suffix tail text) as (dropped & E).
  rewrite E at 2. symmetry. apply last_n_app. unfold zlength in Hlen. lia.
Qed.

Lemma console_text_short tail text :
  (zlength (tail_step tail text) <= 100000)%Z ->
  console_text tail text = tail_step tail text.
Proof. apply truncate_step_short. Qed.

(** ** The adapter's calls *)

Lemma rebuild_tree_encoded :
  encodeURIComponent rebuild_tree = Ok encoded_rebuild_tree.
Proof. reflexivity. Qed.

Lemma params_tree_encoded :
  exists t, encodeURIComponent params_tree = Ok t.
Proof. eexists. reflexivity. Qed.

Lemma error_message_shape (res : Response) :
  error_message res
  = lit "Jenkins " ++ dec (status res) ++ lit " " ++ statusText res ++ lit ": "
      ++ firstn 500 (match res_text res with Some t => t | None => [] end).
Proof.
  unfold error_message. rewrite slice2_prefix by lia. reflexivity.
Qed.

Section AdapterProperties.
Context {P : Platform}.
Variable cfg : Config.
Variable World : Type.
Variable fetch : Request -> World -> option Response * World.

Lemma jenkins_outcome path options (st : State World) answer w :
  fetch (request_for cfg path options) (world st) = (answer, w) ->
  jenkins cfg fetch path options st
  = (outcome answer,
     {| world := w; log := log st ++ [(request_for cfg path options, answer)] |}).
Proof.
  intros E. unfold jenkins, bind, send. rewrite E.
  destruct answer as [res|]; [|reflexivity].
  unfold outcome. destruct (ok res); reflexivity.
Qed.

Lemma bind_lift_ok {A B} (a : A) (k : A -> M World B) st :
  bind (lift (Ok a)) k st = k a st.
Proof. reflexivity. Qed.

Lemma bind_lift_throw {A B} e (k : A -> M World B) st :
  bind (lift (Throw e)) k st = (Throw e, st).
Proof. reflexivity. Qed.

Lemma careful_ret {A} (a : A) : careful (ret (World := World) a).
Proof. intros st H. now left. Qed.

Lemma careful_throw {A} e : careful (throw (World := World) (A := A) e).
Proof. intros st H. now left. Qed.

Lemma careful_lift {A} (r : result A) : careful (lift (World := World) r).
Proof. intros st H. now left. Qed.

Lemma careful_bind {A B} (m : M World A) (k : A -> M World B) :
  careful m -> (forall a, careful (k a)) -> careful (bind m k).
Proof.
  intros Hm Hk st Hst. specialize (Hm st Hst). unfold bind.
  destruct (m st) as [[a|e] st']; simpl in Hm |- *.
  - destruct Hm as [Hall|(before & req & answer & e & _ & _ & _ & [=])].
    now apply Hk.
  - destruct Hm as [Hall|(before & req & answer & e' & E & Hb & O & [= <-])].
    + now left.
    + right. now exists before, req, answer, e.
Qed.

Lemma careful_jenkins path options : careful (jenkins cfg fetch path options).
Proof.
  intros st Hst.
  destruct (fetch (request_for cfg path options) (world st)) as [answer w] eqn:E.
  rewrite (jenkins_outcome _ _ _ _ _ E). simpl.
  destruct (outcome answer) as [res|e] eqn:O.
  - left. apply Forall_app. split; [exact Hst|].
    constructor; [|constructor]. now exists res.
  - right. now exists (log st), (request_for cfg path options), answer, e.
Qed.

Lemma careful_json_of res : careful (json_of (World := World) res).
Proof. unfold json_of. destruct (res_json res); [apply careful_ret|apply careful_throw]. Qed.

Lemma careful_text_of res : careful (text_of (World := World) res).
Proof. unfold text_of. destruct (res_text res); [apply careful_ret|apply careful_throw]. Qed.

Lemma careful_trigger jp params : careful (trigger cfg fetch jp params).
Proof. destruct params; apply careful_jenkins. Qed.

Lemma careful_run c : careful (run cfg fetch c).
Proof.
  destruct c; unfold run;
    repeat first
      [ apply careful_ret
      | apply careful_lift
      | apply careful_jenkins
      | apply careful_json_of
      | apply careful_text_of
      | apply careful_trigger
      | apply careful_bind; [|intros]
      | match goal with |- careful (match ?x with _ => _ end) => destruct x end ].
Qed.

Lemma bind_jenkins {B} path options (k : Response -> M World B) w0 l answer w :
  fetch (request_for cfg path options) w0 = (answer, w) ->
  bind (jenkins cfg fetch path options) k {| world := w0; log := l |}
  = let st' := {| world := w;
                  log := l ++ [(request_for cfg path options, answer)] |} in
    match outcome answer with
    | Ok res => k res st'
    | Throw e => (Throw e, st')
    end.
Proof.
  intros E. unfold bind at 1.
  rewrite (jenkins_outcome path options {| world := w0; log := l |} answer w E).
  cbv zeta. destruct (outcome answer); reflexivity.
Qed.

Lemma bind_json_of {B} res (k : json -> M World B) st :
  bind (json_of res) k st
  = match res_json res with
    | Some v => k v st
    | None => (Throw SyntaxError, st)
    end.
Proof. unfold json_of. destruct (res_json res); reflexivity. Qed.

Lemma outcome_ok res : ok res = true -> outcome (Some res) = Ok res.
Proof. intros H. unfold outcome. now rewrite H. Qed.

Lemma outcome_not_ok res :
  ok res = false -> outcome (Some res) = Throw (Error (error_message res)).
Proof. intros H. unfold outcome. now rewrite H. Qed.

(** C5.  Whatever the call and the server: a response with a status outside
    200-299 is the last thing the call sees, and the call fails with the error
    whose message is made of the status code in decimal, the status text, and
    the first 500 code units of the body (all of it when it is shorter). *)
Theorem non_ok_response_fails_call (c : Call) (w : World) req res :
  In (req, Some res) (log (snd (run cfg fetch c (start w)))) ->
  ok res = false ->
  fst (run cfg fetch c (start w)) = Throw (Error (error_message res)) /\
  (exists before, log (snd (run cfg fetch c (start w))) = before ++ [(req, Some res)]) /\
  error_message res
  = lit "Jenkins " ++ dec (status res) ++ lit " " ++ statusText res ++ lit ": "
      ++ firstn 500 (match res_text res with Some t => t | None => [] end).
Proof.
  intros Hin Hok.
  assert (Hthrow := outcome_not_ok res Hok).
  assert (Hnot : forall l, all_ok l -> ~ In (req, Some res) l).
  { intros l Hall Hl. unfold all_ok in Hall. rewrite Forall_forall in Hall.
    destruct (Hall _ Hl) as (res' & O). cbn [snd] in O. congruence. }
  split; [|split; [|apply error_message_shape]].
  - destruct (careful_run c (start w)) as [Hall|(before & req' & answer & e & E & Hb & O & R)].
    + constructor.
    + now apply Hnot in Hall.
    + rewrite E in Hin. apply in_app_or in Hin. destruct Hin as [Hin|[[= -> ->]|[]]].
      * now apply Hnot in Hb.
      * congruence.
  - destruct (careful_run c (start w)) as [Hall|(before & req' & answer & e & E & Hb & O & R)].
    + constructor.
    + now apply Hnot in Hall.
    + rewrite E in Hin |- *. apply in_app_or in Hin.
      destruct Hin as [Hin|[[= -> ->]|[]]].
      * now apply Hnot in Hb.
      * now exists before.
Qed.

End AdapterProperties.

(** The spec's example of C5: a 500 response with body "internal error". *)
Lemma non_ok_response_fails_call_witness :
  let res := response 500 "Internal Server Error" None (lit "internal error") None in
  fst (run sample_config scripted (jenkins_build (lit "folder/job")) (start [Some res]))
  = Throw (Error (lit "Jenkins 500 Internal Server Error: internal error")).
Proof.
  intros res.
  refine (proj1 (non_ok_response_fails_call sample_config _ scripted
                   (jenkins_build (lit "folder/job")) [Some res]
                   (request_for sample_config (lit "job/folder/job/job/build") post)
                   res _ _)).
  - vm_compute. left. reflexivity.
  - reflexivity.
Defined.

(** Whatever the status text, the message of a 500 with that body holds both
    the code and the body. *)
Lemma error_message_500 reason loc data :
  error_message {| status := 500; statusText := reason; location := loc;
                   res_text := Some (lit "internal error"); res_json := data |}
  = lit "Jenkins " ++ lit "500" ++ lit " " ++ reason ++ lit ": " ++ lit "internal error".
Proof. reflexivity. Qed.

Section CallProperties.
Context {P : Platform}.
Variable cfg : Config.
Variable World : Type.
Variable fetch : Request -> World -> option Response * World.

(** rebuild up to the end of step 1, when all of it goes well. *)
Lemma rebuild_after_step_1 job build jp w res1 w1 info params :
  jobPath job = Ok jp ->
  fetch (info_request cfg jp build encoded_rebuild_tree) w = (Some res1, w1) ->
  ok res1 = true ->
  res_json res1 = Some info ->
  extract_parameters info = Ok params ->
  run cfg fetch (jenkins_rebuild job build) (start w)
  = bind (trigger cfg fetch jp params)
         (fun res =>
            ret (lit "Rebuild of #" ++ build ++ lit " triggered." ++ [newline]
                 ++ lit "Extracted parameters: "
                 ++ JSON_stringify (json_of_object params) ++ [newline]
                 ++ lit "Queue URL: " ++ location_or_empty res))
         {| world := w1;
            log := [(info_request cfg jp build encoded_rebuild_tree, Some res1)] |}.
Proof.
  intros Hjp Hfetch Hok Hjson Hparams. unfold run, start, info_request in *.
  rewrite Hjp, bind_lift_ok, rebuild_tree_encoded, bind_lift_ok.
  rewrite (bind_jenkins cfg World fetch _ _ _ _ _ _ _ Hfetch).
  cbv zeta. rewrite (outcome_ok res1 Hok), bind_json_of, Hjson, Hparams, bind_lift_ok.
  rewrite bind_lift_ok. reflexivity.
Qed.

(** C7.  When the request of step 1 fails, because fetch rejects or the
    response is not ok, rebuild ends with that error and has sent nothing else:
    no build is triggered.  When step 1 goes well and the response to the
    trigger of step 2 is not ok, rebuild ends with the error of that response. *)
Theorem rebuild_stops_at_first_failure job build jp w :
  jobPath job = Ok jp ->
  let req1 := info_request cfg jp build encoded_rebuild_tree in
  (forall answer w1 e,
     fetch req1 w = (answer, w1) ->
     outcome answer = Throw e ->
     run cfg fetch (jenkins_rebuild job build) (start w)
     = (Throw e, {| world := w1; log := [(req1, answer)] |})) /\
  (forall res1 w1 info params res2 w2,
     fetch req1 w = (Some res1, w1) ->
     ok res1 = true ->
     res_json res1 = Some info ->
     extract_parameters info = Ok params ->
     let req2 := match params with
                 | [] => plain_request cfg jp
                 | _ => parameterized_request cfg jp params
                 end in
     fetch req2 w1 = (Some res2, w2) ->
     ok res2 = false ->
     run cfg fetch (jenkins_rebuild job build) (start w)
     = (Throw (Error (error_message res2)),
        {| world := w2; log := [(req1, Some res1); (req2, Some res2)] |})).
Proof.
  intros Hjp req1. split.
  - intros answer w1 e Hfetch Hout. unfold run, start, req1, info_request in *.
    rewrite Hjp, bind_lift_ok, rebuild_tree_encoded, bind_lift_ok.
    rewrite (bind_jenkins cfg World fetch _ _ _ _ _ _ _ Hfetch).
    cbv zeta. rewrite Hout. reflexivity.
  - intros res1 w1 info params res2 w2 Hfetch Hok Hjson Hparams req2 Hfetch2 Hok2.
    rewrite (rebuild_after_step_1 job build jp w res1 w1 info params
               Hjp Hfetch Hok Hjson Hparams).
    unfold trigger. destruct params as [|p params].
    + unfold req2, plain_request in Hfetch2.
      rewrite (bind_jenkins cfg World fetch _ _ _ _ _ _ _ Hfetch2).
      cbv zeta. now rewrite (outcome_not_ok res2 Hok2).
    + unfold req2, parameterized_request in Hfetch2.
      rewrite (bind_jenkins cfg World fetch _ _ _ _ _ _ _ Hfetch2).
      cbv zeta. now rewrite (outcome_not_ok res2 Hok2).
Qed.

(** Step 2 sends one request, chosen by the parameters. *)
Lemma trigger_sent {B} jp params (f : Response -> B) w1 l :
  sent (snd (bind (trigger cfg fetch jp params) (fun res => ret (f res))
                  {| world := w1; log := l |}))
  = map fst l ++ [match params with
                  | [] => plain_request cfg jp
                  | _ => parameterized_request cfg jp params
                  end].
Proof.
  unfold trigger, sent.
  destruct params as [|p params].
  - destruct (fetch (plain_request cfg jp) w1) as [answer w2] eqn:E2.
    unfold plain_request in *.
    rewrite (bind_jenkins cfg World fetch _ _ _ _ _ _ _ E2).
    cbv zeta. destruct (outcome answer); cbn [snd log ret]; now rewrite map_app.
  - destruct (fetch (parameterized_request cfg jp (p :: params)) w1)
      as [answer w2] eqn:E2.
    unfold parameterized_request in *.
    rewrite (bind_jenkins cfg World fetch _ _ _ _ _ _ _ E2).
    cbv zeta. destruct (outcome answer); cbn [snd log ret]; now rewrite map_app.
Qed.

(** C1.  After a first step that went well, the second request of rebuild is
    decided by the extracted parameters alone.  When there are some, it is a
    POST to buildWithParameters whose body is the form encoding of exactly those
    parameters, and no request of the call goes to the build endpoint; when
    there are none, it is a POST to the build endpoint, with no body. *)
Theorem rebuild_trigger_follows_parameters job build jp w res1 w1 info params :
  jobPath job = Ok jp ->
  let req1 := info_request cfg jp build encoded_rebuild_tree in
  fetch req1 w = (Some res1, w1) ->
  ok res1 = true ->
  res_json res1 = Some info ->
  extract_parameters info = Ok params ->
  let final := snd (run cfg fetch (jenkins_rebuild job build) (start w)) in
  (params <> [] ->
     let req2 := parameterized_request cfg jp params in
     sent final = [req1; req2] /\
     url req2 = JENKINS_URL cfg ++ lit "/" ++ jp ++ lit "/buildWithParameters" /\
     method req2 = Some (lit "POST") /\
     body req2 = Some (URLSearchParams_toString params) /\
     Forall (fun r => url r <> url (plain_request cfg jp)) (sent final)) /\
  (params = [] ->
     let req2 := plain_request cfg jp in
     sent final = [req1; req2] /\
     url req2 = JENKINS_URL cfg ++ lit "/" ++ jp ++ lit "/build" /\
     method req2 = Some (lit "POST") /\
     body req2 = None).
Proof.
  intros Hjp req1 Hfetch Hok Hjson Hparams final.
  assert (Hsent : sent final
                  = [req1; match params with
                           | [] => plain_request cfg jp
                           | _ => parameterized_request cfg jp params
                           end]).
  { subst final.
    rewrite (rebuild_after_step_1 job build jp w res1 w1 info params
               Hjp Hfetch Hok Hjson Hparams).
    now rewrite trigger_sent. }
  rewrite Hsent. clear Hsent. split.
  - intros Hne req2. destruct params as [|p params]; [congruence|].
    repeat (split; [reflexivity|]).
    constructor; [|constructor; [|constructor]].
    + unfold req1, info_request, plain_request, request_for. cbn [url].
      intros E. repeat apply app_inv_head in E.
      apply (f_equal (@List.length _)) in E.
      rewrite !length_app in E. simpl in E. lia.
    + unfold req2, parameterized_request, plain_request, request_for. cbn [url].
      intros E. repeat apply app_inv_head in E. discriminate E.
  - intros -> req2. repeat split.
Qed.

Lemma bind_run_ok {B} (k : Response -> M World B) path options w0 l res w :
  fetch (request_for cfg path options) w0 = (Some res, w) ->
  ok res = true ->
  bind (jenkins cfg fetch path options) k {| world := w0; log := l |}
  = k res {| world := w; log := l ++ [(request_for cfg path options, Some res)] |}.
Proof.
  intros E Hok. rewrite (bind_jenkins cfg World fetch _ _ _ _ _ _ _ E).
  cbv zeta. now rewrite (outcome_ok res Hok).
Qed.

(** get_console_output returns the console text after the tail step and the
    truncation step. *)
Lemma console_output_text job build tail jp w res w1 text :
  jobPath job = Ok jp ->
  fetch (request_for cfg (jp ++ lit "/" ++ build ++ lit "/consoleText") no_options) w
  = (Some res, w1) ->
  ok res = true ->
  res_text res = Some text ->
  fst (run cfg fetch (jenkins_get_console_output job build tail) (start w))
  = Ok (truncate_step (tail_step tail text)).
Proof.
  intros Hjp Hfetch Hok Htext. unfold run, start.
  rewrite Hjp, bind_lift_ok.
  rewrite (bind_run_ok _ _ _ _ _ _ _ Hfetch Hok).
  unfold text_of. rewrite Htext. reflexivity.
Qed.

(** C9.  A build and a build with parameters whose trigger is answered with
    an ok response return a text that holds, after "Queue URL: ", the value of
    the response's Location header as it came. *)
Theorem build_reports_location job jp w res w1 l :
  jobPath job = Ok jp ->
  ok res = true ->
  location res = Some l ->
  (fetch (plain_request cfg jp) w = (Some res, w1) ->
   fst (run cfg fetch (jenkins_build job) (start w))
   = Ok (lit "Build triggered successfully." ++ [newline]
         ++ lit "Queue URL: " ++ l ++ [newline]
         ++ lit "Poll " ++ l
         ++ lit "api/json to get the build number once scheduled.")) /\
  (forall params,
     fetch (parameterized_request cfg jp params) w = (Some res, w1) ->
     fst (run cfg fetch (jenkins_build_with_params job params) (start w))
     = Ok (lit "Build triggered with parameters: "
           ++ JSON_stringify (json_of_object params) ++ [newline]
           ++ lit "Queue URL: " ++ l)).
Proof.
  intros Hjp Hok Hloc.
  assert (Hl : location_or_empty res = l).
  { unfold location_or_empty. now rewrite Hloc. }
  split.
  - intros Hfetch. unfold run, start, plain_request in *.
    rewrite Hjp, bind_lift_ok.
    rewrite (bind_run_ok _ _ _ _ _ _ _ Hfetch Hok), Hl. reflexivity.
  - intros params Hfetch. unfold run, start, parameterized_request in *.
    rewrite Hjp, bind_lift_ok.
    rewrite (bind_run_ok _ _ _ _ _ _ _ Hfetch Hok), Hl. reflexivity.
Qed.

End CallProperties.

(** The spec's example of C1: the prior build was run with A = 1 and B = 2. *)
Lemma rebuild_trigger_follows_parameters_witness :
  let final :=
    snd (run sample_config scripted
             (jenkins_rebuild (lit "folder/job") (lit "7"))
             (start [Some (response 200 "OK" None [] (Some sample_info));
                     Some created])) in
  sent final
  = [info_request sample_config (lit "job/folder/job/job") (lit "7") encoded_rebuild_tree;
     parameterized_request sample_config (lit "job/folder/job/job")
       [(lit "A", lit "1"); (lit "B", lit "2")]].
Proof.
  assert (Hne : [(lit "A", lit "1"); (lit "B", lit "2")] <> @nil (jsstring * jsstring))
    by discriminate.
  exact (proj1 (proj1 (rebuild_trigger_follows_parameters sample_config _ scripted
                         (lit "folder/job") (lit "7") (lit "job/folder/job/job")
                         [Some (response 200 "OK" None [] (Some sample_info));
                          Some created]
                         (response 200 "OK" None [] (Some sample_info))
                         [Some created] sample_info
                         [(lit "A", lit "1"); (lit "B", lit "2")]
                         eq_refl eq_refl eq_refl eq_refl eq_refl) Hne)).
Defined.

Lemma rebuild_stops_at_first_failure_witness :
  run sample_config scripted (jenkins_rebuild (lit "folder/job") (lit "7"))
      (start [Some not_found; Some created])
  = (Throw (Error (lit "Jenkins 404 Not Found: no such job")),
     {| world := [Some created];
        log := [(info_request sample_config (lit "job/folder/job/job") (lit "7")
                   encoded_rebuild_tree,
                 Some not_found)] |}).
Proof.
  exact (proj1 (rebuild_stops_at_first_failure sample_config _ scripted
                  (lit "folder/job") (lit "7") (lit "job/folder/job/job")
                  [Some not_found; Some created] eq_refl)
               (Some not_found) [Some created]
               (Error (lit "Jenkins 404 Not Found: no such job"))
               eq_refl eq_refl).
Defined.

Lemma build_reports_location_witness :
  fst (run sample_config scripted (jenkins_build (lit "folder/job")) (start [Some created]))
  = Ok (lit "Build triggered successfully." ++ [newline]
        ++ lit "Queue URL: " ++ sample_queue_url ++ [newline]
        ++ lit "Poll " ++ sample_queue_url
        ++ lit "api/json to get the build number once scheduled.").
Proof.
  exact (proj1 (build_reports_location sample_config _ scripted
                  (lit "folder/job") (lit "job/folder/job/job")
                  [Some created] created [] sample_queue_url
                  eq_refl eq_refl eq_refl) eq_refl).
Defined.

(** ** rebuild: the parameters taken from the prior build *)

(** C6 on the code, at the one name it misses.  An entry named __proto__ has
    a name and a defined value, and yet it is not among the extracted
    parameters: the assignment [params[p.name] = ...] reaches the __proto__
    setter of Object.prototype instead of creating a property.  The same entry
    under any other name is extracted. *)
Theorem extract_parameters_drops_proto {P : Platform} :
  let entry := parameter_entry "__proto__" "1" in
  let info := JObj [(lit "actions", JArr [JObj [(lit "parameters", JArr [entry])]])] in
  get entry (lit "name") = Ok (Some (JStr (lit "__proto__"))) /\
  truthy (Some (JStr (lit "__proto__"))) = true /\
  get entry (lit "value") = Ok (Some (JStr (lit "1"))) /\
  extract_parameters info = Ok [] /\
  extract_parameters
    (JObj [(lit "actions",
            JArr [JObj [(lit "parameters", JArr [parameter_entry "proto" "1"])]])])
  = Ok [(lit "proto", lit "1")].
Proof. repeat split. Qed.

(** *** Assignments to a plain object *)

Lemma jsstring_eqb_eq a b : jsstring_eqb a b = true <-> a = b.
Proof.
  unfold jsstring_eqb. destruct (list_eq_dec N.eq_dec a b); split; congruence.
Qed.

Lemma jsstring_eqb_refl a : jsstring_eqb a a = true.
Proof. now apply jsstring_eqb_eq. Qed.

Lemma jsstring_eqb_neq a b : jsstring_eqb a b = false <-> a <> b.
Proof.
  unfold jsstring_eqb. destruct (list_eq_dec N.eq_dec a b); split; congruence.
Qed.

Ltac eqb_cases a b :=
  let E := fresh "E" in
  destruct (jsstring_eqb a b) eqn:E;
  [apply jsstring_eqb_eq in E | apply jsstring_eqb_neq in E].

Lemma has_key_cons k k1 v1 (o : jsobject) :
  has_key k ((k1, v1) :: o) = (jsstring_eqb k1 k || has_key k o)%bool.
Proof. unfold has_key. simpl. now destruct (jsstring_eqb k1 k). Qed.

Lemma assoc_replace_value k v (o : jsobject) k' :
  has_key k o = true ->
  assoc k' (replace_value k v o) = if jsstring_eqb k k' then Some v else assoc k' o.
Proof.
  induction o as [|[k1 v1] r IH]; [discriminate|].
  rewrite has_key_cons. simpl. intros H.
  eqb_cases k1 k.
  - subst k1. simpl. now destruct (jsstring_eqb k k').
  - simpl in H. simpl. rewrite (IH H).
    eqb_cases k1 k'; [|reflexivity].
    subst k'. eqb_cases k k1; congruence.
Qed.

Lemma assoc_insert_index n k v (o : jsobject) k' :
  has_key k o = false ->
  assoc k' (insert_index n k v o) = if jsstring_eqb k k' then Some v else assoc k' o.
Proof.
  induction o as [|[k1 v1] r IH]; [reflexivity|].
  rewrite has_key_cons. intros H. apply orb_false_iff in H. destruct H as [H1 H2].
  simpl insert_index.
  destruct (array_index k1) as [n'|]; [destruct (n <? n')%N|]; try reflexivity.
  simpl. rewrite (IH H2).
  eqb_cases k1 k'; [|reflexivity].
  subst k'. apply jsstring_eqb_neq in H1.
  eqb_cases k k1; [congruence|reflexivity].
Qed.

Lemma assoc_append k v (o : jsobject) k' :
  has_key k o = false ->
  assoc k' (o ++ [(k, v)]) = if jsstring_eqb k k' then Some v else assoc k' o.
Proof.
  induction o as [|[k1 v1] r IH]; [reflexivity|].
  rewrite has_key_cons. intros H. apply orb_false_iff in H. destruct H as [H1 H2].
  simpl. rewrite (IH H2).
  eqb_cases k1 k'; [|reflexivity].
  subst k'. apply jsstring_eqb_neq in H1.
  eqb_cases k k1; [congruence|reflexivity].
Qed.

Lemma assoc_obj_define k v o k' :
  assoc k' (obj_define k v o) = if jsstring_eqb k k' then Some v else assoc k' o.
Proof.
  unfold obj_define. destruct (has_key k o) eqn:H.
  - now apply assoc_replace_value.
  - destruct (array_index k); [now apply assoc_insert_index|now apply assoc_append].
Qed.

(** Reading a key after an assignment: the assigned value under the assigned
    key, unless that key is __proto__, and what was there under every other. *)
Lemma assoc_obj_set k v o k' :
  assoc k' (obj_set k v o)
  = if jsstring_eqb k (lit "__proto__") then assoc k' o
    else if jsstring_eqb k k' then Some v else assoc k' o.
Proof.
  unfold obj_set. destruct (jsstring_eqb k (lit "__proto__")); [reflexivity|].
  apply assoc_obj_define.
Qed.

(** *** The two loops of rebuild *)

Section Extraction.
Context {P : Platform}.

Lemma qualifies_functional p k s k' s' :
  qualifies p k s -> qualifies p k' s' -> k = k' /\ s = s'.
Proof.
  intros (n & v & Hn & _ & Hv & Hk & Hs) (n' & v' & Hn' & _ & Hv' & Hk' & Hs').
  split; congruence.
Qed.

(** One entry either leaves the parameters alone, and then it does not
    qualify, or it qualifies and is assigned under its key. *)
Lemma extract_parameter_cases params p params' :
  extract_parameter params p = Ok params' ->
  (params' = params /\ forall k s, ~ qualifies p k s) \/
  (exists k s, qualifies p k s /\ params' = obj_set k s params).
Proof.
  unfold extract_parameter.
  destruct (get p (lit "name")) as [name|] eqn:Hn; [|discriminate].
  unfold rbind at 1.
  destruct name as [n|].
  - destruct (truthy (Some n)) eqn:Ht.
    + destruct (get p (lit "value")) as [value|] eqn:Hv; [|discriminate].
      unfold rbind at 1. destruct value as [v|].
      * destruct (ToString n) as [k|] eqn:Hk; [|discriminate].
        destruct (ToString v) as [s|] eqn:Hs; [|discriminate].
        simpl. intros [= <-]. right. exists k, s. split; [|reflexivity].
        now exists n, v.
      * intros [= <-]. left. split; [reflexivity|].
        intros k s (n' & v' & _ & _ & Hv' & _). congruence.
    + intros [= <-]. left. split; [reflexivity|].
      intros k s (n' & v' & Hn' & Ht' & _). congruence.
  - intros [= <-]. left. split; [reflexivity|].
    intros k s (n' & v' & Hn' & _). congruence.
Qed.

Lemma extracted_from_nil : extracted_from [] [].
Proof.
  split; [reflexivity|]. split.
  - intros k s [=].
  - intros k p s _ [].
Qed.

Lemma extract_parameter_step entries params p params' :
  extracted_from entries params ->
  extract_parameter params p = Ok params' ->
  extracted_from (entries ++ [p]) params'.
Proof.
  intros (Hproto & Hsound & Hcomplete) Hstep.
  destruct (extract_parameter_cases _ _ _ Hstep) as [[-> Hnone]|(k & s & Hq & ->)].
  - split; [exact Hproto|]. split.
    + intros k s Hk. destruct (Hsound k s Hk) as (q & Hin & Hq).
      exists q. split; [apply in_or_app; now left|exact Hq].
    + intros k q s Hk Hin Hq. apply in_app_or in Hin.
      destruct Hin as [Hin|[<-|[]]]; [now apply (Hcomplete k q s)|].
      now apply Hnone in Hq.
  - split; [|split].
    + rewrite assoc_obj_set.
      eqb_cases k (lit "__proto__"); [exact Hproto|].
      eqb_cases k (lit "__proto__"); [congruence|exact Hproto].
    + intros k' s'. rewrite assoc_obj_set.
      destruct (jsstring_eqb k (lit "__proto__")).
      * intros Hk. destruct (Hsound k' s' Hk) as (q & Hin & Hq').
        exists q. split; [apply in_or_app; now left|exact Hq'].
      * eqb_cases k k'.
        -- intros [= <-]. subst k'. exists p.
           split; [apply in_or_app; right; now left|exact Hq].
        -- intros Hk. destruct (Hsound k' s' Hk) as (q & Hin & Hq').
           exists q. split; [apply in_or_app; now left|exact Hq'].
    + intros k' q s' Hk' Hin Hq'. rewrite assoc_obj_set.
      apply in_app_or in Hin. destruct Hin as [Hin|[<-|[]]].
      * destruct (jsstring_eqb k (lit "__proto__")); [now apply (Hcomplete k' q s')|].
        destruct (jsstring_eqb k k'); [now exists s|now apply (Hcomplete k' q s')].
      * destruct (qualifies_functional _ _ _ _ _ Hq Hq') as [-> ->].
        eqb_cases k' (lit "__proto__"); [congruence|].
        rewrite jsstring_eqb_refl. now exists s'.
Qed.

Lemma extract_entries entries items : forall params params',
  extracted_from entries params ->
  rfold extract_parameter items params = Ok params' ->
  extracted_from (entries ++ items) params'.
Proof.
  revert entries. induction items as [|p items IH]; intros entries params params' Hinv.
  - intros [= <-]. now rewrite app_nil_r.
  - simpl. destruct (extract_parameter params p) as [params1|] eqn:Hstep; [|discriminate].
    simpl. intros Hrest.
    replace (entries ++ p :: items) with ((entries ++ [p]) ++ items)
      by now rewrite <- app_assoc.
    apply (IH _ params1); [|exact Hrest].
    now apply (extract_parameter_step entries params).
Qed.

Lemma extract_actions actions : forall entries params params',
  extracted_from entries params ->
  rfold extract_action actions params = Ok params' ->
  exists groups,
    rmap action_entries actions = Ok groups /\
    extracted_from (entries ++ List.concat groups) params'.
Proof.
  induction actions as [|action actions IH]; intros entries params params' Hinv.
  - intros [= <-]. exists []. split; [reflexivity|]. simpl. now rewrite app_nil_r.
  - simpl. unfold extract_action at 1, action_entries at 1.
    destruct (get action (lit "parameters")) as [ps|]; [|discriminate].
    simpl. destruct (iterate (or_empty ps)) as [items|]; [|discriminate].
    simpl. destruct (rfold extract_parameter items params) as [params1|] eqn:Hitems;
      [|discriminate].
    simpl. intros Hrest.
    destruct (IH (entries ++ items) params1 params'
                 (extract_entries _ _ _ _ Hinv Hitems) Hrest)
      as (groups & -> & Hinv').
    exists (items :: groups). split; [reflexivity|].
    simpl. now rewrite app_assoc.
Qed.

(** What the extraction guarantees for every name but the one of C6.  When it
    succeeds, a key other than __proto__ is in the extracted parameters if and
    only if some visited entry with a name and a defined value has that key,
    and every value in them is the string form of the value of such an entry
    (the last one with that key, as later assignments replace earlier ones).
    The key __proto__ is never in them. *)
Theorem extract_parameters_characterised info params :
  extract_parameters info = Ok params ->
  exists entries,
    recorded_entries info = Ok entries /\
    assoc (lit "__proto__") params = None /\
    (forall k s, assoc k params = Some s ->
                 exists p, In p entries /\ qualifies p k s) /\
    (forall k p s, k <> lit "__proto__" -> In p entries -> qualifies p k s ->
                   exists s', assoc k params = Some s').
Proof.
  unfold extract_parameters, recorded_entries.
  destruct (get info (lit "actions")) as [actions|]; [|discriminate].
  simpl. destruct (iterate (or_empty actions)) as [items|]; [|discriminate].
  simpl. intros Hfold.
  destruct (extract_actions items [] [] params extracted_from_nil Hfold)
    as (groups & -> & Hinv).
  exists (List.concat groups). split; [reflexivity|exact Hinv].
Qed.

End Extraction.

Lemma extract_parameters_characterised_witness :
  exists entries,
    recorded_entries sample_info = Ok entries /\
    assoc (lit "__proto__") [(lit "A", lit "1"); (lit "B", lit "2")] = None /\
    (forall k s, assoc k [(lit "A", lit "1"); (lit "B", lit "2")] = Some s ->
                 exists p, In p entries /\ qualifies p k s) /\
    (forall k p s, k <> lit "__proto__" -> In p entries -> qualifies p k s ->
                   exists s', assoc k [(lit "A", lit "1"); (lit "B", lit "2")] = Some s').
Proof.
  exact (extract_parameters_characterised sample_info
           [(lit "A", lit "1"); (lit "B", lit "2")] eq_refl).
Defined.

(** *** get_params: flattening the property list *)

Lemma rfold_app {A B} (f : A -> B -> result A) l1 l2 a :
  rfold f (l1 ++ l2) a = rbind (rfold f l1 a) (rfold f l2).
Proof.
  revert a. induction l1 as [|x l1 IH]; intros a; [reflexivity|].
  simpl. destruct (f a x); simpl; [apply IH|reflexivity].
Qed.

Section Flattening.
Context {P : Platform}.

Lemma collect_definitions_spreadable acc prop :
  spreadable prop ->
  collect_definitions acc prop = Ok (acc ++ definitions_of prop).
Proof.
  intros (fields & -> & Hdefs).
  unfold collect_definitions, definitions_of. simpl get. unfold rbind at 1.
  destruct Hdefs as [Hfalsy|(defs & -> & Hlen)].
  - destruct (assoc (lit "parameterDefinitions") fields) as [d|].
    + rewrite Hfalsy. destruct d; try (now rewrite app_nil_r). discriminate.
    + now rewrite app_nil_r.
  - simpl. unfold spread_push. apply N.leb_le in Hlen. now rewrite Hlen.
Qed.

Lemma collect_definitions_flattens props : forall acc,
  Forall spreadable props ->
  rfold collect_definitions props acc = Ok (acc ++ flat_map definitions_of props).
Proof.
  induction props as [|prop props IH]; intros acc Hall.
  - simpl. now rewrite app_nil_r.
  - inversion Hall as [|? ? Hprop Hrest]; subst.
    simpl rfold. rewrite (collect_definitions_spreadable acc prop Hprop).
    unfold rbind at 1. cbv beta iota.
    rewrite (IH _ Hrest). simpl flat_map. now rewrite <- app_assoc.
Qed.

Lemma collect_definitions_overflows acc fields defs :
  assoc (lit "parameterDefinitions") fields = Some (JArr defs) ->
  (max_arguments < N.of_nat (List.length defs))%N ->
  collect_definitions acc (JObj fields) = Throw RangeError.
Proof.
  intros Hdefs Hlen. unfold collect_definitions. simpl get. unfold rbind at 1.
  rewrite Hdefs. simpl. unfold spread_push.
  apply N.leb_gt in Hlen. now rewrite Hlen.
Qed.

Lemma parameter_definitions_of_list fields props :
  or_empty (assoc (lit "property") fields) = JArr props ->
  parameter_definitions (JObj fields) = rfold collect_definitions props [].
Proof.
  intros Hprop. unfold parameter_definitions. simpl get. unfold rbind at 1.
  now rewrite Hprop.
Qed.

(** On a job whose property list is an array of objects, each with no
    parameter definitions or an array of them that the engine can spread, the
    collected definitions are the concatenation of those arrays, in order.  An
    array with more elements than a call takes arguments ends the collection
    with RangeError. *)
Theorem parameter_definitions_flattens fields props :
  assoc (lit "property") fields = Some (JArr props) ->
  (Forall spreadable props ->
     parameter_definitions (JObj fields) = Ok (flat_map definitions_of props)) /\
  (forall before fs defs after,
     props = before ++ JObj fs :: after ->
     Forall spreadable before ->
     assoc (lit "parameterDefinitions") fs = Some (JArr defs) ->
     (max_arguments < N.of_nat (List.length defs))%N ->
     parameter_definitions (JObj fields) = Throw RangeError).
Proof.
  intros Hprop.
  assert (Hlist : parameter_definitions (JObj fields) = rfold collect_definitions props []).
  { apply parameter_definitions_of_list. now rewrite Hprop. }
  rewrite Hlist. split.
  - intros Hall. now rewrite (collect_definitions_flattens props [] Hall).
  - intros before fs defs after -> Hall Hdefs Hlen.
    rewrite rfold_app, (collect_definitions_flattens before [] Hall).
    simpl. now rewrite (collect_definitions_overflows _ fs defs Hdefs Hlen).
Qed.

End Flattening.

Section ParameterText.
Context {P : Platform}.
Variable cfg : Config.
Variable World : Type.
Variable fetch : Request -> World -> option Response * World.

(** C8.  get_params on a job whose JSON was read: with [data.property || []]
    an array of properties that each carry no parameter definitions or an
    array of them, the definitions are flattened in order; when there is none
    the text is the fixed sentence, which is not the text of an empty JSON
    array, and otherwise it is what JSON.stringify(params, null, 2) gives for
    the flattened sequence. *)
Theorem get_params_text job jp t (w : World) res w1 fields props :
  jobPath job = Ok jp ->
  encodeURIComponent params_tree = Ok t ->
  fetch (request_for cfg (jp ++ lit "/api/json?tree=" ++ t) no_options) w
  = (Some res, w1) ->
  ok res = true ->
  res_json res = Some (JObj fields) ->
  or_empty (assoc (lit "property") fields) = JArr props ->
  Forall spreadable props ->
  let defs := flat_map definitions_of props in
  let out := fst (run cfg fetch (jenkins_get_params job) (start w)) in
  (defs = [] -> out = Ok (lit "This job has no parameters defined.")) /\
  (defs <> [] -> out = JSON_stringify_indent2 (JArr defs)) /\
  lit "This job has no parameters defined." <> lit "[]".
Proof.
  intros Hjp Ht Hfetch Hok Hjson Hprop Hall defs out.
  assert (Hdefs : parameter_definitions (JObj fields) = Ok defs).
  { rewrite (parameter_definitions_of_list fields props Hprop).
    now rewrite (collect_definitions_flattens props [] Hall). }
  assert (Hrun : out = match defs with
                       | [] => Ok (lit "This job has no parameters defined.")
                       | _ => JSON_stringify_indent2 (JArr defs)
                       end).
  { unfold out, run, start.
    rewrite Hjp, bind_lift_ok, Ht, bind_lift_ok.
    rewrite (bind_run_ok cfg World fetch _ _ _ _ _ _ _ Hfetch Hok).
    rewrite bind_json_of, Hjson, Hdefs, bind_lift_ok.
    destruct defs; [reflexivity|].
    unfold lift. reflexivity. }
  rewrite Hrun. split; [|split].
  - now intros ->.
  - intros Hne. destruct defs; [congruence|reflexivity].
  - discriminate.
Qed.

End ParameterText.

(** Two jobs: one whose properties carry no definitions, one with a
    definition in its second property. *)
Lemma get_params_text_witness :
  let env := JObj [(lit "name", JStr (lit "ENV"))] in
  let bare := [(lit "property",
                JArr [JObj []; JObj [(lit "parameterDefinitions", JNull)]])] in
  let full := [(lit "property",
                JArr [JObj []; JObj [(lit "parameterDefinitions", JArr [env])]])] in
  fst (run sample_config scripted (jenkins_get_params (lit "folder/job"))
           (start [Some (response 200 "OK" None [] (Some (JObj bare)))]))
  = Ok (lit "This job has no parameters defined.") /\
  fst (run sample_config scripted (jenkins_get_params (lit "folder/job"))
           (start [Some (response 200 "OK" None [] (Some (JObj full)))]))
  = JSON_stringify_indent2 (JArr [env]).
Proof.
  intros env bare full.
  assert (Hbare : Forall spreadable
                    [JObj []; JObj [(lit "parameterDefinitions", JNull)]]).
  { constructor; [|constructor; [|constructor]].
    - exists []. split; [reflexivity|now left].
    - eexists. split; [reflexivity|now left]. }
  assert (Hfull : Forall spreadable
                    [JObj []; JObj [(lit "parameterDefinitions", JArr [env])]]).
  { constructor; [|constructor; [|constructor]].
    - exists []. split; [reflexivity|now left].
    - eexists. split; [reflexivity|]. right. exists [env].
      split; [reflexivity|]. vm_compute. discriminate. }
  split.
  - exact (proj1 (get_params_text sample_config _ scripted
                    (lit "folder/job") (lit "job/folder/job/job") _
                    [Some (response 200 "OK" None [] (Some (JObj bare)))]
                    (response 200 "OK" None [] (Some (JObj bare))) [] bare _
                    eq_refl eq_refl eq_refl eq_refl eq_refl eq_refl Hbare) eq_refl).
  - refine (proj1 (proj2 (get_params_text sample_config _ scripted
                    (lit "folder/job") (lit "job/folder/job/job") _
                    [Some (response 200 "OK" None [] (Some (JObj full)))]
                    (response 200 "OK" None [] (Some (JObj full))) [] full _
                    eq_refl eq_refl eq_refl eq_refl eq_refl eq_refl Hfull)) _).
    discriminate.
Defined.

Lemma jobPath_ill_formed_witness : jobPath (lit "a/" ++ [56320%N]) = Throw URIError.
Proof.
  apply (jobPath_ill_formed (lit "a/" ++ [56320%N])).
  right. left. reflexivity.
Defined.

Lemma parameter_definitions_flattens_witness :
  parameter_definitions
    (JObj [(lit "property",
            JArr [JObj [];
                  JObj [(lit "parameterDefinitions",
                         JArr [JObj [(lit "name", JStr (lit "ENV"))]])]])])
  = Ok [JObj [(lit "name", JStr (lit "ENV"))]].
Proof.
  refine (proj1 (parameter_definitions_flattens
                   [(lit "property",
                     JArr [JObj [];
                           JObj [(lit "parameterDefinitions",
                                  JArr [JObj [(lit "name", JStr (lit "ENV"))]])]])]
                   [JObj [];
                    JObj [(lit "parameterDefinitions",
                           JArr [JObj [(lit "name", JStr (lit "ENV"))]])]]
                   eq_refl) _).
  constructor; [|constructor; [|constructor]].
  - exists []. split; [reflexivity|now left].
  - eexists. split; [reflexivity|]. right. eexists. split; [reflexivity|].
    vm_compute. discriminate.
Defined.

(** What the missed name does to rebuild: the prior build had one parameter,
    and the new build is triggered without any. *)
Lemma rebuild_proto_goes_unparameterized :
  let info :=
    JObj [(lit "actions",
           JArr [JObj [(lit "parameters", JArr [parameter_entry "__proto__" "1"])]])] in
  sent (snd (run sample_config scripted
                 (jenkins_rebuild (lit "folder/job") (lit "7"))
                 (start [Some (response 200 "OK" None [] (Some info)); Some created])))
  = [info_request sample_config (lit "job/folder/job/job") (lit "7") encoded_rebuild_tree;
     plain_request sample_config (lit "job/folder/job/job")].
Proof. reflexivity. Qed.

(** * Further properties of the adapter *)

(** ** What every call sends *)

Section Requests.
Context {P : Platform}.
Variable cfg : Config.
Variable World : Type.
Variable fetch : Request -> World -> option Response * World.

Lemma grows_ret {A} R (a : A) : grows_by 0 R (ret (World := World) a).
Proof. intros st. exists []. rewrite app_nil_r. repeat split; constructor. Qed.

Lemma grows_throw {A} R e : grows_by 0 R (throw (World := World) (A := A) e).
Proof. intros st. exists []. rewrite app_nil_r. repeat split; constructor. Qed.

Lemma grows_lift {A} R (r : result A) : grows_by 0 R (lift (World := World) r).
Proof. intros st. exists []. rewrite app_nil_r. repeat split; constructor. Qed.

Lemma grows_bind {A B} n1 n2 R (m : M World A) (k : A -> M World B) :
  grows_by n1 R m -> (forall a, grows_by n2 R (k a)) ->
  grows_by (n1 + n2) R (bind m k).
Proof.
  intros Hm Hk st. destruct (Hm st) as (more1 & E1 & L1 & F1). unfold bind.
  destruct (m st) as [[a|e] st1]; simpl in E1 |- *.
  - destruct (Hk a st1) as (more2 & E2 & L2 & F2).
    exists (more1 ++ more2). rewrite E2, E1, <- app_assoc.
    split; [reflexivity|]. split.
    + rewrite length_app. lia.
    + apply Forall_app. now split.
  - exists more1. split; [exact E1|]. split; [lia|exact F1].
Qed.

Lemma grows_weaken {A} n n' R (m : M World A) :
  grows_by n R m -> n <= n' -> grows_by n' R m.
Proof.
  intros Hm Hn st. destruct (Hm st) as (more & E & L & F).
  exists more. split; [exact E|]. split; [lia|exact F].
Qed.

Lemma grows_jenkins (R : Request -> Prop) path options :
  R (request_for cfg path options) ->
  grows_by 1 R (jenkins cfg fetch path options).
Proof.
  intros HR st.
  destruct (fetch (request_for cfg path options) (world st)) as [answer w] eqn:E.
  rewrite (jenkins_outcome cfg World fetch path options st answer w E).
  exists [(request_for cfg path options, answer)]. simpl.
  split; [reflexivity|]. split; [lia|]. now constructor.
Qed.

Lemma grows_json_of R res : grows_by 0 R (json_of (World := World) res).
Proof. unfold json_of. destruct (res_json res); [apply grows_ret|apply grows_throw]. Qed.

Lemma grows_text_of R res : grows_by 0 R (text_of (World := World) res).
Proof. unfold text_of. destruct (res_text res); [apply grows_ret|apply grows_throw]. Qed.

End Requests.

Ltac grow_with side :=
  repeat first
    [ apply grows_ret
    | apply grows_lift
    | apply grows_json_of
    | apply grows_text_of
    | apply grows_jenkins; side
    | eapply grows_bind; [|intros]
    | match goal with
      | |- grows_by _ _ (trigger _ _ _ ?params) => unfold trigger; destruct params
      | |- grows_by _ _ (match ?x with _ => _ end) => destruct x
      end ].

Section RequestProperties.
Context {P : Platform}.
Variable cfg : Config.
Variable World : Type.
Variable fetch : Request -> World -> option Response * World.

Lemma run_grows_authorized c :
  exists n, grows_by n (authorized cfg) (run cfg fetch c).
Proof.
  destruct c; unfold run; eexists;
    grow_with ltac:(split; [reflexivity|eexists; reflexivity]).
Qed.

(** Every request of every call carries the Basic credentials built from the
    configured user and token, and goes to a URL under the configured base. *)
Theorem every_request_authorized (c : Call) (w : World) (req : Request) :
  In req (sent (snd (run cfg fetch c (start w)))) ->
  assoc (lit "Authorization") (headers req)
  = Some (lit "Basic " ++ base64 (JENKINS_USER cfg ++ lit ":" ++ JENKINS_TOKEN cfg)) /\
  exists path, url req = JENKINS_URL cfg ++ lit "/" ++ path.
Proof.
  intros Hin. destruct (run_grows_authorized c) as (n & Hn).
  destruct (Hn (start w)) as (more & E & _ & F).
  unfold sent in Hin. rewrite E in Hin. simpl in Hin.
  apply in_map_iff in Hin. destruct Hin as (ex & <- & Hex).
  rewrite Forall_forall in F. exact (F ex Hex).
Qed.

Lemma run_grows_budget c :
  grows_by (request_budget c) (fun _ => True) (run cfg fetch c).
Proof.
  destruct c; unfold run;
    (eapply grows_weaken; [grow_with ltac:(exact I)|simpl; lia]).
Qed.

(** A call sends at most two requests, and only rebuild can send two. *)
Theorem requests_within_budget (c : Call) (w : World) :
  List.length (sent (snd (run cfg fetch c (start w)))) <= request_budget c /\
  request_budget c <= 2 /\
  (request_budget c = 2 -> exists job build, c = jenkins_rebuild job build).
Proof.
  split; [|split].
  - destruct (run_grows_budget c (start w)) as (more & E & L & _).
    unfold sent. rewrite E, length_map. simpl. exact L.
  - destruct c; simpl; lia.
  - destruct c; simpl; try discriminate. intros _. now eexists; eexists.
Qed.

Lemma run_grows_reading c :
  reads_only c = true ->
  exists n, grows_by n (fun req => method req = None /\ body req = None)
                     (run cfg fetch c).
Proof.
  destruct c; try discriminate; intros _; unfold run; eexists;
    grow_with ltac:(split; reflexivity).
Qed.

(** The five reading tools never send a POST and never a body: each of their
    requests leaves the method to fetch's default, GET. *)
Theorem reading_tools_only_get (c : Call) (w : World) (req : Request) :
  reads_only c = true ->
  In req (sent (snd (run cfg fetch c (start w)))) ->
  method req = None /\ body req = None.
Proof.
  intros Hc Hin. destruct (run_grows_reading c Hc) as (n & Hn).
  destruct (Hn (start w)) as (more & E & _ & F).
  unfold sent in Hin. rewrite E in Hin. simpl in Hin.
  apply in_map_iff in Hin. destruct Hin as (ex & <- & Hex).
  rewrite Forall_forall in F. exact (F ex Hex).
Qed.

(** A call that returns its text saw only ok responses; one that met a
    rejected fetch stops there with FetchFailed. *)
Theorem result_follows_exchanges (c : Call) (w : World) :
  let final := run cfg fetch c (start w) in
  (forall text, fst final = Ok text ->
     forall req answer, In (req, answer) (log (snd final)) ->
       exists res, answer = Some res /\ ok res = true) /\
  (forall req, In (req, None) (log (snd final)) ->
     fst final = Throw FetchFailed /\
     exists before, log (snd final) = before ++ [(req, None)]).
Proof.
  intros final.
  assert (Hok : forall l (req : Request) answer, all_ok l -> In (req, answer) l ->
                  exists res, answer = Some res /\ ok res = true).
  { intros l req answer Hall Hin. unfold all_ok in Hall.
    rewrite Forall_forall in Hall. destruct (Hall _ Hin) as (res & O).
    simpl in O. destruct answer as [res'|]; [|discriminate].
    exists res'. split; [reflexivity|].
    unfold outcome in O. destruct (ok res'); [reflexivity|discriminate]. }
  assert (Hrun : agrees (fst final) (log (snd final))).
  { apply careful_run. constructor. }
  split.
  - intros text Htext req answer Hin.
    destruct Hrun as [Hall|(before & req' & answer' & e & _ & _ & _ & R)].
    + exact (Hok _ req answer Hall Hin).
    + congruence.
  - intros req Hin.
    destruct Hrun as [Hall|(before & req' & answer' & e & E & Hb & O & R)].
    + destruct (Hok _ _ _ Hall Hin) as (res & [=] & _).
    + rewrite E in Hin |- *. apply in_app_or in Hin.
      destruct Hin as [Hin|[[= -> ->]|[]]].
      * destruct (Hok _ _ _ Hb Hin) as (res & [=] & _).
      * simpl in O. injection O as <-. split; [exact R|now exists before].
Qed.

End RequestProperties.

Lemma every_request_authorized_witness :
  let req := info_request sample_config (lit "job/folder/job/job") (lit "7")
               encoded_rebuild_tree in
  assoc (lit "Authorization") (headers req) = Some (lit "Basic user:token") /\
  exists path, url req = lit "https://ci.example.com" ++ lit "/" ++ path.
Proof.
  refine (every_request_authorized sample_config _ scripted
            (jenkins_rebuild (lit "folder/job") (lit "7"))
            [Some not_found]
            (info_request sample_config (lit "job/folder/job/job") (lit "7")
               encoded_rebuild_tree) _).
  left. reflexivity.
Defined.

Lemma reading_tools_only_get_witness :
  let req := request_for sample_config (lit "queue/item/3/api/json") no_options in
  method req = None /\ body req = None.
Proof.
  refine (reading_tools_only_get sample_config _ scripted
            (jenkins_get_queue_item (lit "3")) [Some not_found]
            (request_for sample_config (lit "queue/item/3/api/json") no_options)
            eq_refl _).
  left. reflexivity.
Defined.

(** ** Failures before and between the requests *)

Lemma encodeURIComponent_throws s e :
  encodeURIComponent s = Throw e -> e = URIError.
Proof.
  destruct (isWellFormed s) eqn:W.
  - destruct (encodeURIComponent_well_formed s W) as (x & ->). discriminate.
  - rewrite (encodeURIComponent_ill_formed s W). now intros [= <-].
Qed.

Lemma jobPath_throws_on_ill_formed job :
  Exists (fun seg => isWellFormed seg = false) (split slash job) ->
  jobPath job = Throw URIError.
Proof. intros H. unfold jobPath. now rewrite (rmap_job_segment_throws _ H). Qed.

Section EarlyFailures.
Context {P : Platform}.
Variable cfg : Config.
Variable World : Type.
Variable fetch : Request -> World -> option Response * World.

(** A job name with an unpaired surrogate in one of its segments makes every
    tool that takes a job fail with URIError before anything is sent. *)
Theorem ill_formed_job_sends_nothing (c : Call) (job : jsstring) (w : World) :
  job_of c = Some job ->
  Exists (fun seg => isWellFormed seg = false) (split slash job) ->
  run cfg fetch c (start w) = (Throw URIError, start w).
Proof.
  intros Hjob Hill. apply jobPath_throws_on_ill_formed in Hill.
  destruct c; simpl in Hjob; try discriminate; injection Hjob as ->;
    unfold run; rewrite ?Hill; try reflexivity.
  - destruct (tree_query tree) as [qs|e] eqn:Hq; [reflexivity|].
    unfold tree_query in Hq. destruct tree as [[|ch t]|]; try discriminate.
    destruct (encodeURIComponent (ch :: t)) as [x|e'] eqn:He; [discriminate|].
    apply encodeURIComponent_throws in He. subst e'. simpl in Hq.
    injection Hq as <-. reflexivity.
  - destruct (tree_query tree) as [qs|e] eqn:Hq; [reflexivity|].
    unfold tree_query in Hq. destruct tree as [[|ch t]|]; try discriminate.
    destruct (encodeURIComponent (ch :: t)) as [x|e'] eqn:He; [discriminate|].
    apply encodeURIComponent_throws in He. subst e'. simpl in Hq.
    injection Hq as <-. reflexivity.
Qed.

Lemma trigger_log {B} jp params (f : Response -> B) w1 l :
  exists answer,
    log (snd (bind (trigger cfg fetch jp params) (fun res => ret (f res))
                   {| world := w1; log := l |}))
    = l ++ [(match params with
             | [] => plain_request cfg jp
             | _ => parameterized_request cfg jp params
             end, answer)].
Proof.
  unfold trigger. destruct params as [|p params].
  - destruct (fetch (plain_request cfg jp) w1) as [answer w2] eqn:E2.
    exists answer. unfold plain_request in *.
    rewrite (bind_jenkins cfg World fetch _ _ _ _ _ _ _ E2).
    cbv zeta. now destruct (outcome answer).
  - destruct (fetch (parameterized_request cfg jp (p :: params)) w1)
      as [answer w2] eqn:E2.
    exists answer. unfold parameterized_request in *.
    rewrite (bind_jenkins cfg World fetch _ _ _ _ _ _ _ E2).
    cbv zeta. now destruct (outcome answer).
Qed.

(** rebuild reaches its second request only when the first was answered with
    an ok response whose body is JSON from which the parameters could be
    extracted, and the second request is then the trigger those parameters
    choose. *)
Theorem rebuild_trigger_only_after_extraction job build (w : World) ex1 ex2 :
  log (snd (run cfg fetch (jenkins_rebuild job build) (start w))) = [ex1; ex2] ->
  exists jp res1 info params,
    jobPath job = Ok jp /\
    fst ex1 = info_request cfg jp build encoded_rebuild_tree /\
    snd ex1 = Some res1 /\
    ok res1 = true /\
    res_json res1 = Some info /\
    extract_parameters info = Ok params /\
    fst ex2 = match params with
              | [] => plain_request cfg jp
              | _ => parameterized_request cfg jp params
              end.
Proof.
  unfold run, start.
  destruct (jobPath job) as [jp|e] eqn:Hjp; [|discriminate].
  rewrite bind_lift_ok, rebuild_tree_encoded, bind_lift_ok.
  destruct (fetch (info_request cfg jp build encoded_rebuild_tree) w)
    as [answer w1] eqn:Hfetch.
  unfold info_request in Hfetch.
  rewrite (bind_jenkins cfg World fetch _ _ _ _ _ _ _ Hfetch). cbv zeta.
  destruct (outcome answer) as [res1|e] eqn:Hout; [|discriminate].
  assert (Hres : answer = Some res1 /\ ok res1 = true).
  { unfold outcome in Hout. destruct answer as [r|]; [|discriminate].
    destruct (ok r) eqn:Hok; [|discriminate]. injection Hout as ->. now split. }
  destruct Hres as [-> Hok].
  rewrite bind_json_of.
  destruct (res_json res1) as [info|] eqn:Hjson; [|discriminate].
  destruct (extract_parameters info) as [params|e] eqn:Hparams; [|discriminate].
  rewrite bind_lift_ok, bind_lift_ok.
  destruct (trigger_log jp params
              (fun res => lit "Rebuild of #" ++ build ++ lit " triggered." ++ [newline]
                 ++ lit "Extracted parameters: "
                 ++ JSON_stringify (json_of_object params) ++ [newline]
                 ++ lit "Queue URL: " ++ location_or_empty res)
              w1
              [(request_for cfg
                  (jp ++ lit "/" ++ build ++ lit "/api/json?tree=" ++ encoded_rebuild_tree)
                  no_options, Some res1)]) as (answer2 & E).
  intros Hlog.
  assert (E' : [ex1; ex2]
               = [(request_for cfg
                     (jp ++ lit "/" ++ build ++ lit "/api/json?tree=" ++ encoded_rebuild_tree)
                     no_options, Some res1)]
                 ++ [(match params with
                      | [] => plain_request cfg jp
                      | _ => parameterized_request cfg jp params
                      end, answer2)]).
  { rewrite <- E. symmetry. exact Hlog. }
  simpl app in E'. injection E' as -> ->.
  exists jp, res1, info, params. repeat split; assumption.
Qed.

End EarlyFailures.

Lemma ill_formed_job_sends_nothing_witness :
  run sample_config scripted (jenkins_build (lit "a/" ++ [56320%N])) (start [Some created])
  = (Throw URIError, start [Some created]).
Proof.
  refine (ill_formed_job_sends_nothing sample_config _ scripted
            (jenkins_build (lit "a/" ++ [56320%N])) (lit "a/" ++ [56320%N])
            [Some created] eq_refl _).
  right. left. reflexivity.
Defined.

Lemma rebuild_trigger_only_after_extraction_witness :
  exists jp res1 info params,
    jobPath (lit "folder/job") = Ok jp /\
    info_request sample_config (lit "job/folder/job/job") (lit "7") encoded_rebuild_tree
    = info_request sample_config jp (lit "7") encoded_rebuild_tree /\
    Some (response 200 "OK" None [] (Some sample_info)) = Some res1 /\
    ok res1 = true /\
    res_json res1 = Some info /\
    extract_parameters info = Ok params /\
    parameterized_request sample_config (lit "job/folder/job/job")
      [(lit "A", lit "1"); (lit "B", lit "2")]
    = match params with
      | [] => plain_request sample_config jp
      | _ => parameterized_request sample_config jp params
      end.
Proof.
  exact (rebuild_trigger_only_after_extraction sample_config _ scripted
           (lit "folder/job") (lit "7")
           [Some (response 200 "OK" None [] (Some sample_info)); Some created]
           (info_request sample_config (lit "job/folder/job/job") (lit "7")
              encoded_rebuild_tree,
            Some (response 200 "OK" None [] (Some sample_info)))
           (parameterized_request sample_config (lit "job/folder/job/job")
              [(lit "A", lit "1"); (lit "B", lit "2")],
            Some created)
           eq_refl).
Defined.

(** ** The shape of a resolved path *)

Lemma rmap_ok {A B} (f : A -> result B) l : forall ys,
  rmap f l = Ok ys -> Forall2 (fun x y => f x = Ok y) l ys.
Proof.
  induction l as [|x l IH]; intros ys.
  - intros [= <-]. constructor.
  - simpl. destruct (f x) as [y|] eqn:Hx; [|discriminate]. simpl.
    destruct (rmap f l) as [ys'|]; [|discriminate]. simpl.
    intros [= <-]. constructor; [exact Hx|now apply IH].
Qed.

Lemma job_segments_inv segs pieces :
  Forall2 (fun seg piece => job_segment seg = Ok piece) segs pieces ->
  exists encs,
    Forall2 (fun seg e => encodeURIComponent seg = Ok e) segs encs /\
    pieces = map marked encs.
Proof.
  induction 1 as [|seg piece segs pieces Hseg _ (encs & Hall & ->)].
  - exists []. split; [constructor|reflexivity].
  - unfold job_segment in Hseg.
    destruct (encodeURIComponent seg) as [e|] eqn:He; [|discriminate].
    injection Hseg as <-.
    exists (e :: encs). split; [now constructor|reflexivity].
Qed.

Lemma jobPath_ok_inv job path :
  jobPath job = Ok path ->
  exists encs,
    Forall2 (fun seg e => encodeURIComponent seg = Ok e) (split slash job) encs /\
    path = join (lit "/") (map marked encs).
Proof.
  unfold jobPath.
  destruct (rmap job_segment (split slash job)) as [pieces|] eqn:Hmap; [|discriminate].
  intros [= <-]. apply rmap_ok in Hmap.
  destruct (job_segments_inv _ _ Hmap) as (encs & Hall & ->).
  now exists encs.
Qed.

Lemma hex_digit_unreserved n : uri_unreserved (hex_digit n) = true.
Proof.
  unfold hex_digit. cbv zeta.
  assert (Hd : (N.land n 15 < 16)%N).
  { change 15%N with (N.ones 4). rewrite N.land_ones.
    apply N.mod_lt. discriminate. }
  set (d := N.land n 15) in *.
  unfold uri_unreserved, is_alpha, is_digit, in_range.
  destruct (N.ltb_spec d 10).
  - apply orb_true_iff. left. apply orb_true_iff. right.
    apply andb_true_iff. split; apply N.leb_le; lia.
  - apply orb_true_iff. left. apply orb_true_iff. left.
    apply orb_true_iff. left.
    apply andb_true_iff. split; apply N.leb_le; lia.
Qed.

Lemma percent_encode_chars cp :
  Forall (fun c => uri_unreserved c = true \/ c = 37%N) (percent_encode cp).
Proof.
  unfold percent_encode. apply Forall_flat_map. apply Forall_forall. intros b _.
  unfold percent_octet.
  constructor; [now right|].
  constructor; [left; apply hex_digit_unreserved|].
  constructor; [left; apply hex_digit_unreserved|constructor].
Qed.

Lemma encodeURIComponent_chars_bounded n : forall s e,
  List.length s <= n ->
  encodeURIComponent s = Ok e ->
  Forall (fun c => uri_unreserved c = true \/ c = 37%N) e.
Proof.
  induction n as [|n IH]; intros s e Hlen.
  - destruct s; [|simpl in Hlen; lia]. intros [= <-]. constructor.
  - destruct s as [|c r]; [intros [= <-]; constructor|].
    simpl in Hlen. simpl encodeURIComponent.
    destruct (uri_unreserved c) eqn:Hu.
    + destruct (encodeURIComponent r) as [e'|] eqn:Hr; [|discriminate].
      intros [= <-]. constructor; [now left|].
      apply (IH r); [lia|exact Hr].
    + destruct (is_trail_surrogate c); [discriminate|].
      destruct (is_lead_surrogate c).
      * destruct r as [|d r']; [discriminate|].
        destruct (is_trail_surrogate d); [|discriminate].
        destruct (encodeURIComponent r') as [e'|] eqn:Hr; [|discriminate].
        intros [= <-]. apply Forall_app. split; [apply percent_encode_chars|].
        apply (IH r'); [simpl in Hlen; lia|exact Hr].
      * destruct (encodeURIComponent r) as [e'|] eqn:Hr; [|discriminate].
        intros [= <-]. apply Forall_app. split; [apply percent_encode_chars|].
        apply (IH r); [lia|exact Hr].
Qed.

Lemma join_marked_chars encs :
  Forall (Forall (fun c => uri_unreserved c = true \/ c = 37%N)) encs ->
  forallb path_char (join (lit "/") (map marked encs)) = true.
Proof.
  assert (Hchar : forall e, Forall (fun c => uri_unreserved c = true \/ c = 37%N) e ->
                            forallb path_char e = true).
  { intros e He. apply forallb_forall. rewrite Forall_forall in He.
    intros c Hc. unfold path_char. destruct (He c Hc) as [->| ->]; reflexivity. }
  induction 1 as [|e encs He Hall IH]; [reflexivity|].
  destruct encs as [|e' encs].
  - change (join (lit "/") (map marked [e])) with (lit "job/" ++ e).
    rewrite forallb_app, (Hchar e He). reflexivity.
  - change (map marked (e :: e' :: encs)) with (marked e :: map marked (e' :: encs)).
    rewrite join_cons by discriminate.
    unfold marked at 1. rewrite !forallb_app, (Hchar e He), IH. reflexivity.
Qed.

(** Whatever the job name, a path the resolver returns starts with job/ and
    holds nothing but unreserved characters (letters, digits and the marks
    - _ . ! ~ * ' ( )), percent signs and slashes; it has exactly one slash
    after each job and one between the pieces. *)
Theorem jobPath_is_url_safe (job path : jsstring) :
  jobPath job = Ok path ->
  forallb path_char path = true /\
  (exists rest, path = lit "job/" ++ rest) /\
  count_occ N.eq_dec path slash = 2 * List.length (split slash job) - 1.
Proof.
  intros Hpath. destruct (jobPath_ok_inv job path Hpath) as (encs & Hall & ->).
  assert (Hne : encs <> []).
  { intros ->. inversion Hall as [Hnil|]. symmetry in Hnil.
    now apply split_not_nil in Hnil. }
  assert (Hsafe : Forall (Forall (fun c => uri_unreserved c = true \/ c = 37%N)) encs).
  { clear Hpath Hne. induction Hall as [|seg e segs encs He _ IH]; constructor.
    - exact (encodeURIComponent_chars_bounded _ seg e (le_n _) He).
    - exact IH. }
  assert (Hfree : Forall (fun e => ~ In slash e) encs).
  { clear Hpath Hne Hsafe. induction Hall as [|seg e segs encs He _ IH]; constructor.
    - exact (encodeURIComponent_no_slash seg e He).
    - exact IH. }
  split; [now apply join_marked_chars|]. split.
  - destruct encs as [|e [|e' encs]]; [congruence| |].
    + now exists e.
    + exists (e ++ lit "/" ++ join (lit "/") (map marked (e' :: encs))).
      change (map marked (e :: e' :: encs)) with (marked e :: map marked (e' :: encs)).
      rewrite join_cons by discriminate. unfold marked at 1.
      now rewrite <- app_assoc.
  - rewrite (Forall2_length Hall). clear Hall Hpath Hsafe.
    assert (Hcount : forall e, ~ In slash e -> count_occ N.eq_dec e slash = 0).
    { intros e He. now apply count_occ_not_In. }
    revert Hne. induction Hfree as [|e encs He Hfree IH]; intros Hne; [reflexivity|].
    destruct encs as [|e' encs].
    + change (join (lit "/") (map marked [e])) with (lit "job/" ++ e).
      rewrite count_occ_app, (Hcount e He). reflexivity.
    + change (map marked (e :: e' :: encs)) with (marked e :: map marked (e' :: encs)).
      rewrite join_cons by discriminate.
      unfold marked at 1. rewrite !count_occ_app, (Hcount e He), IH by discriminate.
      simpl. lia.
Qed.

Lemma jobPath_is_url_safe_witness :
  forallb path_char (lit "job/caf%C3%A9/job/a%20b") = true /\
  (exists rest, lit "job/caf%C3%A9/job/a%20b" = lit "job/" ++ rest) /\
  count_occ N.eq_dec (lit "job/caf%C3%A9/job/a%20b") slash
  = 2 * List.length (split slash (lit "caf" ++ [233%N] ++ lit "/a b")) - 1.
Proof.
  exact (jobPath_is_url_safe (lit "caf" ++ [233%N] ++ lit "/a b")
           (lit "job/caf%C3%A9/job/a%20b") eq_refl).
Defined.

(** ** The configured base URL *)

Lemma strip_trailing_slashes_spec s :
  exists n, s = strip_trailing_slashes s ++ repeat slash n.
Proof.
  induction s as [|c r (n & IH)]; [now exists 0|].
  simpl. destruct (strip_trailing_slashes r) as [|k ks] eqn:E.
  - simpl in IH. destruct (N.eqb_spec c slash) as [->|_].
    + exists (S n). simpl. now rewrite <- IH.
    + exists n. simpl. now rewrite <- IH.
  - exists n. simpl. now rewrite IH at 1.
Qed.

Lemma strip_trailing_slashes_end s pre :
  strip_trailing_slashes s <> pre ++ [slash].
Proof.
  revert pre. induction s as [|c r IH]; intros pre.
  - simpl. now destruct pre.
  - simpl. destruct (strip_trailing_slashes r) as [|k ks] eqn:E.
    + destruct (N.eqb_spec c slash) as [->|Hc].
      * now destruct pre.
      * destruct pre as [|p [|p' pre]]; cbn [app]; congruence.
    + destruct pre as [|p pre]; cbn [app].
      * discriminate.
      * intros [= _ H]. now apply (IH pre).
Qed.

Lemma strip_trailing_slashes_unchanged s :
  (forall pre, s <> pre ++ [slash]) -> strip_trailing_slashes s = s.
Proof.
  induction s as [|c r IH]; intros Hend; [reflexivity|].
  simpl. rewrite IH.
  - destruct r as [|k ks]; [|reflexivity].
    destruct (N.eqb_spec c slash) as [->|_]; [|reflexivity].
    now destruct (Hend []).
  - intros pre ->. now apply (Hend (c :: pre)).
Qed.

(** The base URL the adapter works with is the configured one without the
    slashes at its end, and nothing else taken away: it never ends in a slash,
    so the slash that [jenkins] puts before the path is the only one there; a
    variable that is not set counts as empty. *)
Theorem configured_base_has_no_trailing_slash (url user token : option jsstring) :
  let cfg := config_of_env url user token in
  (exists n, env_or_empty url = JENKINS_URL cfg ++ repeat slash n) /\
  (forall pre, JENKINS_URL cfg <> pre ++ [slash]) /\
  strip_trailing_slashes (JENKINS_URL cfg) = JENKINS_URL cfg /\
  ((forall pre, env_or_empty url <> pre ++ [slash]) ->
     JENKINS_URL cfg = env_or_empty url) /\
  JENKINS_URL (config_of_env None user token) = [].
Proof.
  intros cfg. simpl.
  split; [apply strip_trailing_slashes_spec|].
  split; [apply strip_trailing_slashes_end|].
  split; [|split; [apply strip_trailing_slashes_unchanged|reflexivity]].
  apply strip_trailing_slashes_unchanged. apply strip_trailing_slashes_end.
Qed.

Lemma configured_base_has_no_trailing_slash_witness :
  JENKINS_URL (config_of_env (Some (lit "https://ci.example.com")) None None)
  = lit "https://ci.example.com".
Proof.
  refine (proj1 (proj2 (proj2 (proj2
           (configured_base_has_no_trailing_slash
              (Some (lit "https://ci.example.com")) None None)))) _).
  intros pre E. apply (f_equal (@rev N)) in E. rewrite rev_app_distr in E.
  vm_compute in E. discriminate E.
Defined.

(** ** More on the console text *)

Lemma split_pieces_free c s : Forall (fun piece => ~ In c piece) (split c s).
Proof.
  induction s as [|x r IH]; [repeat constructor; tauto|].
  simpl. destruct (N.eqb_spec x c) as [->|Hx].
  - constructor; [tauto|exact IH].
  - destruct (split c r) as [|h t]; [repeat constructor; simpl; intuition|].
    inversion IH as [|? ? Hh Ht]; subst.
    constructor; [|exact Ht]. simpl. intuition.
Qed.

Lemma split_join c (l : list jsstring) :
  l <> [] -> Forall (fun piece => ~ In c piece) l -> split c (join [c] l) = l.
Proof.
  intros Hne Hall. revert Hne.
  induction Hall as [|x l Hx Hall IH]; intros Hne; [now destruct Hne|].
  destruct l as [|y l].
  - simpl. now apply split_without.
  - rewrite join_cons by discriminate.
    change (x ++ [c] ++ join [c] (y :: l)) with (x ++ c :: join [c] (y :: l)).
    rewrite split_app, (split_without c x Hx), IH by discriminate. reflexivity.
Qed.

Lemma tail_step_positive q text :
  (0 < q)%Q ->
  tail_step (Some (Finite q)) text
  = join [newline]
      (skipn (if (Z.quot (Qnum q) (Z.pos (Qden q)) =? 0)%Z then 0
              else List.length (split newline text)
                   - Z.to_nat (Z.quot (Qnum q) (Z.pos (Qden q))))
             (split newline text)).
Proof.
  intros Hq. unfold tail_step.
  rewrite (positive_number_truthy _ Hq), (proj2 (gt_zero_finite _) Hq).
  simpl andb. cbv iota zeta. apply f_equal.
  unfold negate, ToIntegerOrInfinity, Qopp. simpl Qnum. simpl Qden.
  rewrite Z.quot_opp_l by discriminate.
  assert (Hk : (0 <= Z.quot (Qnum q) (Z.pos (Qden q)))%Z).
  { apply Z.quot_pos; [|lia]. unfold Qlt in Hq. simpl in Hq. lia. }
  set (k := Z.quot (Qnum q) (Z.pos (Qden q))) in *.
  rewrite slice_as_skipn. f_equal.
  unfold relative_index, zlength.
  destruct (Z.eqb_spec k 0) as [->|Hk0].
  - change (- 0 <? 0)%Z with false. cbv iota. lia.
  - destruct (Z.ltb_spec (- k) 0); lia.
Qed.

(** What a tail above zero keeps, line by line.  The tail is truncated to a
    whole number k.  With k at least 1 the lines of the result are the last k
    lines of the text, or all of them when there are no more than k; with k = 0
    (a tail below 1) the text comes back whole. *)
Theorem tail_step_keeps_last_lines (q : Q) (text : jsstring) :
  (0 < q)%Q ->
  let k := Z.quot (Qnum q) (Z.pos (Qden q)) in
  let lines := split newline text in
  (1 <= k ->
     split newline (tail_step (Some (Finite q)) text)
     = skipn (List.length lines - Z.to_nat k) lines)%Z /\
  (k = 0 \/ zlength lines <= k -> tail_step (Some (Finite q)) text = text)%Z.
Proof.
  intros Hq k lines. rewrite (tail_step_positive q text Hq). fold k lines.
  split.
  - intros Hk. destruct (Z.eqb_spec k 0) as [Hk0|_]; [lia|]. apply split_join.
    + intros E. apply (f_equal (@List.length _)) in E.
      rewrite length_skipn in E. simpl in E.
      assert (Hpos : List.length lines <> 0).
      { intros L. apply length_zero_iff_nil in L. now apply split_not_nil in L. }
      lia.
    + assert (Hfree := split_pieces_free newline text). fold lines in Hfree.
      rewrite Forall_forall in Hfree |- *. intros piece Hin.
      apply Hfree. rewrite <- (firstn_skipn (List.length lines - Z.to_nat k) lines).
      apply in_or_app. now right.
  - intros Hk. destruct (Z.eqb_spec k 0) as [Hk0|Hk0]; [apply join_split|].
    replace (List.length lines - Z.to_nat k) with 0
      by (unfold zlength in Hk; lia).
    apply join_split.
Qed.

Lemma tail_step_keeps_last_lines_witness :
  let text := lit "one" ++ [newline] ++ lit "two" ++ [newline] ++ lit "three" in
  split newline (tail_step (Some (Finite (5 # 2))) text) = [lit "two"; lit "three"].
Proof.
  intros text.
  assert (Hq : (0 < 5 # 2)%Q) by reflexivity.
  assert (Hk : (1 <= Z.quot (Qnum (5 # 2)) (Z.pos (Qden (5 # 2))))%Z)
    by (vm_compute; discriminate).
  exact (proj1 (tail_step_keeps_last_lines (5 # 2) text Hq) Hk).
Defined.

Lemma console_text_bounded (tail : option jsnumber) (text : jsstring) :
  (zlength (console_text tail text) <= 100020)%Z /\
  exists dropped shown,
    text = dropped ++ shown /\
    (zlength shown <= 100000)%Z /\
    (console_text tail text = shown \/
     console_text tail text = truncation_marker ++ shown).
Proof.
  destruct (tail_step_suffix tail text) as (dropped & E).
  unfold console_text.
  destruct (Z.le_gt_cases (zlength (tail_step tail text)) 100000) as [Hle|Hgt].
  - rewrite (truncate_step_short _ Hle). split; [lia|].
    exists dropped, (tail_step tail text). split; [exact E|]. split; [exact Hle|now left].
  - rewrite (truncate_step_long _ Hgt).
    assert (Hlen : List.length (last_n (Z.to_nat 100000) (tail_step tail text))
                   = Z.to_nat 100000).
    { apply last_n_length. unfold zlength in Hgt. lia. }
    split.
    + unfold zlength. rewrite length_app, Hlen.
      change (List.length truncation_marker) with 20. lia.
    + exists (dropped ++ firstn (List.length (tail_step tail text) - Z.to_nat 100000)
                               (tail_step tail text)),
             (last_n (Z.to_nat 100000) (tail_step tail text)).
      split; [|split].
      * rewrite <- app_assoc, <- last_n_suffix. exact E.
      * unfold zlength. rewrite Hlen. lia.
      * now right.
Qed.

(** ** The text get_console_output returns *)

Section ConsoleOutput.
Context {P : Platform}.
Variable cfg : Config.
Variable World : Type.
Variable fetch : Request -> World -> option Response * World.

(** C3, as amended.  get_console_output on a console output that was read.
    When the tail does not take effect (absent, NaN, zero or negative) the
    truncation step sees the whole output.  Whenever the text the tail step
    kept is above 100,000 code units, the text returned is the marker
    [... truncated ...] and a newline, followed by exactly the last 100,000
    code units of that text, which are trailing content of the output;
    whenever it is at most 100,000, that text is returned as it is. *)
Theorem console_output_keeps_trailing job build tail jp (w : World) res w1 text :
  jobPath job = Ok jp ->
  fetch (request_for cfg (jp ++ lit "/" ++ build ++ lit "/consoleText") no_options) w
  = (Some res, w1) ->
  ok res = true ->
  res_text res = Some text ->
  let out := fst (run cfg fetch (jenkins_get_console_output job build tail) (start w)) in
  let kept := tail_step tail text in
  ((forall t, tail = Some t -> (number_truthy t && gt_zero t)%bool = false) ->
     kept = text) /\
  ((100000 < zlength kept)%Z ->
     let shown := last_n (Z.to_nat 100000) kept in
     out = Ok (lit "[... truncated ...]" ++ [newline] ++ shown) /\
     zlength shown = 100000%Z /\
     exists dropped, text = dropped ++ shown) /\
  ((zlength kept <= 100000)%Z -> out = Ok kept).
Proof.
  intros Hjp Hfetch Hok Htext out kept.
  assert (Hout : out = Ok (truncate_step kept))
    by exact (console_output_text cfg World fetch job build tail jp w res w1 text
                Hjp Hfetch Hok Htext).
  split; [|split].
  - intros Hoff. unfold kept, tail_step. destruct tail as [t|]; [|reflexivity].
    now rewrite (Hoff t eq_refl).
  - intros Hlen shown. split; [|split].
    + rewrite Hout, (truncate_step_long _ Hlen). reflexivity.
    + unfold zlength in *. unfold shown. rewrite last_n_length; lia.
    + destruct (tail_step_suffix tail text) as (dropped & E).
      exists (dropped ++ firstn (List.length kept - Z.to_nat 100000) kept).
      rewrite <- app_assoc. unfold shown. rewrite <- last_n_suffix. exact E.
  - intros Hlen. rewrite Hout. now rewrite (truncate_step_short _ Hlen).
Qed.

(** With a tail as well: when what the tail step kept is above 100,000 code
    units, the text get_console_output returns is the marker followed by the
    last 100,000 code units of the whole console output. *)
Theorem console_output_truncated job build tail jp (w : World) res w1 text :
  jobPath job = Ok jp ->
  fetch (request_for cfg (jp ++ lit "/" ++ build ++ lit "/consoleText") no_options) w
  = (Some res, w1) ->
  ok res = true ->
  res_text res = Some text ->
  (100000 < zlength (tail_step tail text))%Z ->
  fst (run cfg fetch (jenkins_get_console_output job build tail) (start w))
  = Ok (truncation_marker ++ last_n (Z.to_nat 100000) text).
Proof.
  intros Hjp Hfetch Hok Htext Hlen.
  rewrite (console_output_text cfg World fetch job build tail jp w res w1 text
             Hjp Hfetch Hok Htext).
  f_equal. exact (console_text_long tail text Hlen).
Qed.

(** Whatever the server sends: a text that get_console_output returns is an
    end piece of the body of the one response it read, of at most 100,000
    code units, as it is or behind the truncation marker, and so never more
    than 100,020 code units in all. *)
Theorem console_output_is_bounded_suffix job build tail (w : World) out :
  let final := run cfg fetch (jenkins_get_console_output job build tail) (start w) in
  fst final = Ok out ->
  (zlength out <= 100020)%Z /\
  exists req res text dropped shown,
    log (snd final) = [(req, Some res)] /\
    ok res = true /\
    res_text res = Some text /\
    text = dropped ++ shown /\
    (zlength shown <= 100000)%Z /\
    (out = shown \/ out = truncation_marker ++ shown).
Proof.
  intros final. unfold final, run, start.
  destruct (jobPath job) as [jp|e] eqn:Hjp; [|discriminate].
  rewrite bind_lift_ok.
  destruct (fetch (request_for cfg (jp ++ lit "/" ++ build ++ lit "/consoleText")
                     no_options) w) as [answer w1] eqn:Hfetch.
  rewrite (bind_jenkins cfg World fetch _ _ _ _ _ _ _ Hfetch). cbv zeta.
  destruct answer as [res|]; [|discriminate].
  unfold outcome. destruct (ok res) eqn:Hok; [|discriminate].
  unfold bind, text_of.
  destruct (res_text res) as [text|] eqn:Htext; [|discriminate].
  unfold ret. cbn [fst snd log]. intros [= <-].
  destruct (console_text_bounded tail text) as (Hlen & dropped & shown & E & Hshown & Hout).
  split; [exact Hlen|].
  exists (request_for cfg (jp ++ lit "/" ++ build ++ lit "/consoleText") no_options),
         res, text, dropped, shown.
  repeat split; assumption.
Qed.

End ConsoleOutput.

Lemma console_output_keeps_trailing_witness :
  let text := repeat 97%N (Z.to_nat 100001) in
  fst (run sample_config scripted
           (jenkins_get_console_output (lit "app") (lit "7") None)
           (start [Some (response 200 "OK" None text None)]))
  = Ok (lit "[... truncated ...]" ++ [newline] ++ last_n (Z.to_nat 100000) text).
Proof.
  intros text.
  assert (H : (100000 < zlength (tail_step None text))%Z) by (vm_compute; reflexivity).
  exact (proj1 (proj1 (proj2
           (console_output_keeps_trailing sample_config _ scripted
              (lit "app") (lit "7") None (lit "job/app")
              [Some (response 200 "OK" None text None)]
              (response 200 "OK" None text None) [] text
              eq_refl eq_refl eq_refl eq_refl)) H)).
Defined.

(** C3, as stated, fails when a tail is given: the console output below has
    100,003 code units, and with tail = 1 the text returned is its last line,
    b, without the marker and not the trailing 100,000 code units. *)
Lemma console_output_tail_counterexample :
  let text := repeat 97%N (Z.to_nat 100001) ++ [newline] ++ lit "b" in
  let out :=
    fst (run sample_config scripted
             (jenkins_get_console_output (lit "app") (lit "7")
                (Some (Finite (inject_Z 1))))
             (start [Some (response 200 "OK" None text None)])) in
  zlength text = 100003%Z /\
  out = Ok (lit "b") /\
  out <> Ok (truncation_marker ++ last_n (Z.to_nat 100000) text).
Proof.
  intros text out.
  assert (Hout : out = Ok (lit "b")) by (vm_compute; reflexivity).
  split; [vm_compute; reflexivity|]. split; [exact Hout|].
  rewrite Hout. discriminate.
Qed.

Lemma console_output_truncated_witness :
  let text := lit "first" ++ [newline] ++ repeat 97%N (Z.to_nat 100001) in
  fst (run sample_config scripted
           (jenkins_get_console_output (lit "app") (lit "7")
              (Some (Finite (inject_Z 1))))
           (start [Some (response 200 "OK" None text None)]))
  = Ok (truncation_marker ++ last_n (Z.to_nat 100000) text).
Proof.
  intros text.
  assert (H : (100000 < zlength (tail_step (Some (Finite (inject_Z 1))) text))%Z)
    by (vm_compute; reflexivity).
  exact (console_output_truncated sample_config _ scripted
           (lit "app") (lit "7") (Some (Finite (inject_Z 1))) (lit "job/app")
           [Some (response 200 "OK" None text None)]
           (response 200 "OK" None text None) [] text
           eq_refl eq_refl eq_refl eq_refl H).
Defined.

Lemma console_output_is_bounded_suffix_witness :
  let final := run sample_config scripted
                   (jenkins_get_console_output (lit "app") (lit "7") None)
                   (start [Some (response 200 "OK" None (lit "line 1") None)]) in
  (zlength (lit "line 1") <= 100020)%Z /\
  exists req res text dropped shown,
    log (snd final) = [(req, Some res)] /\
    ok res = true /\
    res_text res = Some text /\
    text = dropped ++ shown /\
    (zlength shown <= 100000)%Z /\
    (lit "line 1" = shown \/ lit "line 1" = truncation_marker ++ shown).
Proof.
  exact (console_output_is_bounded_suffix sample_config _ scripted
           (lit "app") (lit "7") None
           [Some (response 200 "OK" None (lit "line 1") None)]
           (lit "line 1") eq_refl).
Defined.

(** ** More on the extracted parameters *)

Lemma has_key_false k (o : jsobject) :
  has_key k o = false <-> ~ In k (map fst o).
Proof.
  induction o as [|[k1 v1] r IH]; [simpl; tauto|].
  rewrite has_key_cons, orb_false_iff, IH, jsstring_eqb_neq. simpl. tauto.
Qed.

Lemma replace_value_keys k v (o : jsobject) :
  map fst (replace_value k v o) = map fst o.
Proof.
  induction o as [|[k1 v1] r IH]; [reflexivity|].
  simpl. destruct (jsstring_eqb k1 k); simpl; [reflexivity|now rewrite IH].
Qed.

Lemma insert_index_keys n k v (o : jsobject) k' :
  In k' (map fst (insert_index n k v o)) <-> k' = k \/ In k' (map fst o).
Proof.
  induction o as [|[k1 v1] r IH]; [simpl; intuition|].
  simpl insert_index.
  destruct (array_index k1) as [n'|]; [destruct (n <? n')%N|];
    simpl; try rewrite IH; intuition.
Qed.

Lemma insert_index_nodup n k v (o : jsobject) :
  NoDup (map fst o) -> ~ In k (map fst o) ->
  NoDup (map fst (insert_index n k v o)).
Proof.
  induction o as [|[k1 v1] r IH]; intros Hnd Hk.
  - simpl. constructor; [tauto|constructor].
  - inversion Hnd as [|? ? Hk1 Hr]; subst. simpl insert_index.
    destruct (array_index k1) as [n'|]; [destruct (n <? n')%N|].
    + simpl. now constructor.
    + simpl. constructor.
      * rewrite insert_index_keys. simpl in Hk. intuition.
      * apply IH; [exact Hr|]. simpl in Hk. tauto.
    + simpl. now constructor.
Qed.

Lemma obj_define_nodup k v o :
  NoDup (map fst o) -> NoDup (map fst (obj_define k v o)).
Proof.
  intros Hnd. unfold obj_define. destruct (has_key k o) eqn:H.
  - now rewrite replace_value_keys.
  - apply has_key_false in H.
    destruct (array_index k).
    + now apply insert_index_nodup.
    + rewrite map_app. apply NoDup_app; [exact Hnd|repeat constructor; tauto|].
      intros a Ha [<-|[]]. now apply H.
Qed.

Lemma obj_set_nodup k v o :
  NoDup (map fst o) -> NoDup (map fst (obj_set k v o)).
Proof.
  intros Hnd. unfold obj_set.
  destruct (jsstring_eqb k (lit "__proto__")); [exact Hnd|].
  now apply obj_define_nodup.
Qed.

Lemma rfold_invariant {A B} (f : A -> B -> result A) (I : A -> Prop) :
  (forall a x a', I a -> f a x = Ok a' -> I a') ->
  forall l a a', I a -> rfold f l a = Ok a' -> I a'.
Proof.
  intros Hstep. induction l as [|x l IH]; intros a a' Ha.
  - now intros [= <-].
  - simpl. destruct (f a x) as [a1|] eqn:Hx; [|discriminate]. simpl.
    apply IH. now apply (Hstep a x).
Qed.

Section MoreExtraction.
Context {P : Platform}.

(** The two loops as one loop over all the entries, when they succeed. *)
Lemma extract_actions_flat actions : forall params params',
  rfold extract_action actions params = Ok params' ->
  exists groups,
    rmap action_entries actions = Ok groups /\
    rfold extract_parameter (List.concat groups) params = Ok params'.
Proof.
  induction actions as [|action actions IH]; intros params params'.
  - intros [= <-]. now exists [].
  - simpl. unfold extract_action at 1, action_entries at 1.
    destruct (get action (lit "parameters")) as [ps|]; [|discriminate].
    simpl. destruct (iterate (or_empty ps)) as [items|]; [|discriminate].
    simpl. destruct (rfold extract_parameter items params) as [params1|] eqn:Hitems;
      [|discriminate].
    simpl. intros Hrest.
    destruct (IH params1 params' Hrest) as (groups & -> & Hflat).
    exists (items :: groups). split; [reflexivity|].
    simpl. now rewrite rfold_app, Hitems.
Qed.

Lemma extract_parameters_flat info params :
  extract_parameters info = Ok params ->
  exists entries,
    recorded_entries info = Ok entries /\
    rfold extract_parameter entries [] = Ok params.
Proof.
  unfold extract_parameters, recorded_entries.
  destruct (get info (lit "actions")) as [actions|]; [|discriminate].
  simpl. destruct (iterate (or_empty actions)) as [items|]; [|discriminate].
  simpl. intros Hfold.
  destruct (extract_actions_flat items [] params Hfold) as (groups & -> & Hflat).
  now exists (List.concat groups).
Qed.

Lemma extract_parameter_keeps_other params p params' k :
  extract_parameter params p = Ok params' ->
  (forall s, ~ qualifies p k s) ->
  assoc k params' = assoc k params.
Proof.
  intros Hstep Hnot.
  destruct (extract_parameter_cases _ _ _ Hstep) as [[-> _]|(k' & s' & Hq & ->)];
    [reflexivity|].
  rewrite assoc_obj_set.
  destruct (jsstring_eqb k' (lit "__proto__")); [reflexivity|].
  eqb_cases k' k; [|reflexivity].
  subst k'. now apply Hnot in Hq.
Qed.

(** When several recorded entries have the same name, the last one decides:
    the extracted value of a key other than __proto__ is the string form of
    the value of the last entry that has a name denoting that key and a
    defined value. *)
Theorem extract_parameters_last_wins info params before p after k s :
  extract_parameters info = Ok params ->
  recorded_entries info = Ok (before ++ p :: after) ->
  qualifies p k s ->
  k <> lit "__proto__" ->
  (forall q s', In q after -> ~ qualifies q k s') ->
  assoc k params = Some s.
Proof.
  intros Hparams Hentries Hq Hk Hafter.
  destruct (extract_parameters_flat info params Hparams) as (entries & E & Hfold).
  rewrite Hentries in E. injection E as <-.
  rewrite rfold_app in Hfold.
  destruct (rfold extract_parameter before []) as [params1|]; [|discriminate].
  simpl in Hfold.
  destruct (extract_parameter params1 p) as [params2|] eqn:Hp; [|discriminate].
  simpl in Hfold.
  assert (H2 : assoc k params2 = Some s).
  { destruct (extract_parameter_cases _ _ _ Hp) as [[_ Hnone]|(k' & s' & Hq' & ->)].
    - now apply Hnone in Hq.
    - destruct (qualifies_functional _ _ _ _ _ Hq Hq') as [<- <-].
      rewrite assoc_obj_set.
      eqb_cases k (lit "__proto__"); [congruence|].
      now rewrite jsstring_eqb_refl. }
  rewrite <- H2. clear H2 Hp Hq Hentries Hparams.
  revert params2 Hfold. induction after as [|q after IH]; intros params2.
  - now intros [= <-].
  - simpl. destruct (extract_parameter params2 q) as [params3|] eqn:Hstep; [|discriminate].
    simpl. intros Hrest.
    rewrite (IH (fun q' s' Hin => Hafter q' s' (or_intror Hin)) params3 Hrest).
    apply (extract_parameter_keeps_other params2 q params3 k Hstep).
    intros s'. apply Hafter. now left.
Qed.

(** The extracted parameters never hold a name twice. *)
Theorem extract_parameters_distinct_names info params :
  extract_parameters info = Ok params ->
  NoDup (map fst params).
Proof.
  intros Hparams.
  destruct (extract_parameters_flat info params Hparams) as (entries & _ & Hfold).
  apply (rfold_invariant extract_parameter (fun o => NoDup (map fst o)))
    with (l := entries) (a := []); [|constructor|exact Hfold].
  intros o p o' Ho Hstep.
  destruct (extract_parameter_cases _ _ _ Hstep) as [[-> _]|(k & s & _ & ->)];
    [exact Ho|now apply obj_set_nodup].
Qed.

End MoreExtraction.

Lemma extract_parameters_last_wins_witness :
  assoc (lit "A") [(lit "A", lit "2"); (lit "B", lit "3")] = Some (lit "2").
Proof.
  refine (extract_parameters_last_wins twice_named_info
            [(lit "A", lit "2"); (lit "B", lit "3")]
            [parameter_entry "A" "1"] (parameter_entry "A" "2")
            [parameter_entry "B" "3"] (lit "A") (lit "2")
            eq_refl eq_refl _ _ _).
  - exists (JStr (lit "A")), (JStr (lit "2")). repeat split.
  - discriminate.
  - intros q s' [<-|[]] (n & v & Hn & _ & _ & Hk & _).
    injection Hn as <-. discriminate Hk.
Defined.

Lemma extract_parameters_distinct_names_witness :
  NoDup (map fst [(lit "A", lit "2"); (lit "B", lit "3")]).
Proof.
  exact (extract_parameters_distinct_names twice_named_info
           [(lit "A", lit "2"); (lit "B", lit "3")] eq_refl).
Defined.

(** ** How the reading of the prior build can fail *)

Lemma get_throws v k e : get v k = Throw e -> e = TypeError.
Proof. destruct v; simpl; try discriminate. now intros [= <-]. Qed.

Lemma iterate_throws v e : iterate v = Throw e -> e = TypeError.
Proof. destruct v; simpl; try discriminate; now intros [= <-]. Qed.

Lemma rfold_throws {A B} (f : A -> B -> result A) (kind : exn -> Prop) :
  (forall a x e, f a x = Throw e -> kind e) ->
  forall l a e, rfold f l a = Throw e -> kind e.
Proof.
  intros Hstep. induction l as [|x l IH]; intros a e; [discriminate|].
  simpl. destruct (f a x) as [a1|e1] eqn:Hx; simpl.
  - apply IH.
  - intros [= <-]. now apply (Hstep a x).
Qed.

Section ExtractionFailures.
Context {P : Platform}.

Lemma ToString_within_throws : forall v depth e,
  ToString_within depth v = Throw e -> type_or_range e.
Proof.
  fix IH 1. intros v depth e. destruct v as [|b|n|s|items|fields]; simpl.
  - discriminate.
  - destruct b; discriminate.
  - discriminate.
  - discriminate.
  - destruct (N.eqb depth 0); [intros [= <-]; now right|].
    match goal with
    | |- rbind (?elements items) _ = _ -> _ =>
        assert (Hel : forall e', elements items = Throw e' -> type_or_range e')
    end.
    { induction items as [|x r IHr]; intros e'; [discriminate|].
      pose proof (IH x (N.pred depth)) as IHx.
      assert (Hx : forall e1,
                 match x with
                 | JNull => Ok []
                 | _ => ToString_within (N.pred depth) x
                 end = Throw e1 ->
                 type_or_range e1).
      { destruct x; try discriminate; exact IHx. }
      clear IHx. cbn beta iota.
      match goal with
      | |- rbind ?a _ = _ -> _ => destruct a as [y|e1] eqn:Ha
      end.
      - unfold rbind at 1.
        match goal with
        | |- rbind ?t _ = _ -> _ => destruct t eqn:Hr
        end; [discriminate|].
        intros [= <-]. now apply IHr.
      - intros [= <-]. now apply Hx. }
    match goal with
    | |- rbind ?t _ = _ -> _ => destruct t eqn:Ht; simpl; [discriminate|]
    end.
    intros [= <-]. now apply Hel.
  - destruct (assoc (lit "toString") fields); [intros [= <-]; now left|discriminate].
Qed.

Lemma ToString_throws v e : ToString v = Throw e -> type_or_range e.
Proof. apply ToString_within_throws. Qed.

(** Arrays nested as deep as the engine goes, and one deeper. *)
Lemma ToString_within_nested n : forall depth,
  ToString_within depth (nested n)
  = if (N.of_nat n <? depth)%N then Ok [] else Throw RangeError.
Proof.
  induction n as [|n IH]; intros depth.
  - simpl. destruct (N.eqb_spec depth 0) as [->|Hd]; [reflexivity|].
    destruct (N.ltb_spec 0 depth); [reflexivity|lia].
  - cbn [nested]. simpl ToString_within.
    destruct (N.eqb_spec depth 0) as [->|Hd].
    + now destruct (N.of_nat (S n)).
    + assert (Hel : match nested n with
                    | JNull => Ok []
                    | _ => ToString_within (N.pred depth) (nested n)
                    end = ToString_within (N.pred depth) (nested n))
        by (destruct n; reflexivity).
      rewrite Hel, IH.
      destruct (N.ltb_spec (N.of_nat n) (N.pred depth)),
               (N.ltb_spec (N.of_nat (S n)) depth); try lia; reflexivity.
Qed.

Lemma ToString_too_deep : ToString (nested (N.to_nat max_nesting)) = Throw RangeError.
Proof.
  unfold ToString. rewrite ToString_within_nested, N2Nat.id.
  now rewrite N.ltb_irrefl.
Qed.

Lemma extract_parameter_throws params p e :
  extract_parameter params p = Throw e -> type_or_range e.
Proof.
  unfold extract_parameter.
  destruct (get p (lit "name")) as [name|e1] eqn:Hn;
    [|intros [= <-]; left; now apply get_throws in Hn].
  unfold rbind at 1. destruct name as [n|]; [|discriminate].
  destruct (truthy (Some n)); [|discriminate].
  destruct (get p (lit "value")) as [value|e1] eqn:Hv;
    [|intros [= <-]; left; now apply get_throws in Hv].
  unfold rbind at 1. destruct value as [v|]; [|discriminate].
  destruct (ToString n) as [k|e1] eqn:Hk;
    [|intros [= <-]; now apply ToString_throws in Hk].
  destruct (ToString v) as [s|e1] eqn:Hs;
    [discriminate|intros [= <-]; now apply ToString_throws in Hs].
Qed.

Lemma extract_action_throws params action e :
  extract_action params action = Throw e -> type_or_range e.
Proof.
  unfold extract_action.
  destruct (get action (lit "parameters")) as [ps|e1] eqn:Hp;
    [|intros [= <-]; left; now apply get_throws in Hp].
  unfold rbind at 1.
  destruct (iterate (or_empty ps)) as [items|e1] eqn:Hi;
    [|intros [= <-]; left; now apply iterate_throws in Hi].
  unfold rbind at 1.
  apply (rfold_throws extract_parameter type_or_range extract_parameter_throws).
Qed.

Lemma extract_actions_null actions : forall params,
  In JNull actions ->
  exists e, rfold extract_action actions params = Throw e.
Proof.
  induction actions as [|action actions IH]; intros params; [intros []|].
  intros Hin. simpl.
  destruct (extract_action params action) as [params1|e] eqn:Hstep.
  - simpl. apply IH. destruct Hin as [->|Hin]; [discriminate Hstep|exact Hin].
  - simpl. now exists e.
Qed.

Lemma extract_parameters_throws info e :
  extract_parameters info = Throw e -> type_or_range e.
Proof.
  unfold extract_parameters.
  destruct (get info (lit "actions")) as [actions|e1] eqn:Ha;
    [|intros [= <-]; left; now apply get_throws in Ha].
  unfold rbind at 1.
  destruct (iterate (or_empty actions)) as [items|e1] eqn:Hi;
    [|intros [= <-]; left; now apply iterate_throws in Hi].
  unfold rbind at 1.
  apply (rfold_throws extract_action type_or_range extract_action_throws).
Qed.

Lemma extract_parameters_of_actions fields actions :
  assoc (lit "actions") fields = Some (JArr actions) ->
  extract_parameters (JObj fields) = rfold extract_action actions [].
Proof.
  intros Ha. unfold extract_parameters. simpl get. rewrite Ha. reflexivity.
Qed.

(** How extraction fails.  It fails with a TypeError or a RangeError and with
    nothing else.  A build whose JSON is null, or whose actions are an object
    (nothing to loop over), gives TypeError.  A null among the actions makes
    extraction fail, with TypeError when the actions before it went through.
    A value made of arrays nested deeper than the engine converts gives
    RangeError. *)
Theorem extract_parameters_failures (info : json) :
  (forall e, extract_parameters info = Throw e -> e = TypeError \/ e = RangeError) /\
  (info = JNull -> extract_parameters info = Throw TypeError) /\
  (forall fields other,
     info = JObj fields ->
     assoc (lit "actions") fields = Some (JObj other) ->
     extract_parameters info = Throw TypeError) /\
  (forall fields actions,
     info = JObj fields ->
     assoc (lit "actions") fields = Some (JArr actions) ->
     In JNull actions ->
     exists e, extract_parameters info = Throw e) /\
  (forall fields before after params,
     info = JObj fields ->
     assoc (lit "actions") fields = Some (JArr (before ++ JNull :: after)) ->
     extract_parameters (JObj [(lit "actions", JArr before)]) = Ok params ->
     extract_parameters info = Throw TypeError) /\
  (forall name,
     name <> [] ->
     info = JObj [(lit "actions",
                   JArr [JObj [(lit "parameters",
                                JArr [JObj [(lit "name", JStr name);
                                            (lit "value",
                                             nested (N.to_nat max_nesting))]])]])] ->
     extract_parameters info = Throw RangeError).
Proof.
  split; [|split; [|split; [|split; [|split]]]].
  - intros e. apply extract_parameters_throws.
  - now intros ->.
  - intros fields other -> Ha. unfold extract_parameters. simpl get.
    rewrite Ha. reflexivity.
  - intros fields actions -> Ha Hin.
    rewrite (extract_parameters_of_actions fields actions Ha).
    now apply extract_actions_null.
  - intros fields before after params -> Ha Hbefore.
    rewrite (extract_parameters_of_actions fields _ Ha).
    rewrite (extract_parameters_of_actions [(lit "actions", JArr before)] before eq_refl)
      in Hbefore.
    rewrite rfold_app, Hbefore. reflexivity.
  - intros name Hname ->. destruct name as [|c name]; [congruence|].
    unfold extract_parameters.
    cbn -[ToString nested N.to_nat].
    rewrite ToString_too_deep. reflexivity.
Qed.

End ExtractionFailures.

Lemma extract_parameters_failures_witness :
  extract_parameters (JObj [(lit "actions", JArr [JObj []; JNull])]) = Throw TypeError.
Proof.
  exact (proj1 (proj2 (proj2 (proj2 (proj2
           (extract_parameters_failures
              (JObj [(lit "actions", JArr [JObj []; JNull])]))))))
           [(lit "actions", JArr [JObj []; JNull])] [JObj []] [] []
           eq_refl eq_refl eq_refl).
Defined.

Section UnusableStepOne.
Context {P : Platform}.
Variable cfg : Config.
Variable World : Type.
Variable fetch : Request -> World -> option Response * World.

(** rebuild triggers nothing when step 1 was answered with an ok response
    that cannot be used: a body that is not JSON ends the call with
    SyntaxError, a JSON from which the parameters cannot be extracted with the
    error of the extraction, and in both cases the read of step 1 is the only
    request. *)
Theorem rebuild_stops_on_unusable_answer job build jp (w : World) res1 w1 :
  jobPath job = Ok jp ->
  let req1 := info_request cfg jp build encoded_rebuild_tree in
  fetch req1 w = (Some res1, w1) ->
  ok res1 = true ->
  (res_json res1 = None ->
     run cfg fetch (jenkins_rebuild job build) (start w)
     = (Throw SyntaxError, {| world := w1; log := [(req1, Some res1)] |})) /\
  (forall info e,
     res_json res1 = Some info ->
     extract_parameters info = Throw e ->
     run cfg fetch (jenkins_rebuild job build) (start w)
     = (Throw e, {| world := w1; log := [(req1, Some res1)] |})).
Proof.
  intros Hjp req1 Hfetch Hok. unfold req1, info_request in *. split.
  - intros Hjson. unfold run, start.
    rewrite Hjp, bind_lift_ok, rebuild_tree_encoded, bind_lift_ok.
    rewrite (bind_run_ok cfg World fetch _ _ _ _ _ _ _ Hfetch Hok).
    rewrite bind_json_of, Hjson. reflexivity.
  - intros info e Hjson He.
    unfold run, start.
    rewrite Hjp, bind_lift_ok, rebuild_tree_encoded, bind_lift_ok.
    rewrite (bind_run_ok cfg World fetch _ _ _ _ _ _ _ Hfetch Hok).
    rewrite bind_json_of, Hjson, He. reflexivity.
Qed.

End UnusableStepOne.

Lemma rebuild_stops_on_unusable_answer_witness :
  run sample_config scripted (jenkins_rebuild (lit "folder/job") (lit "7"))
      (start [Some (response 200 "OK" None [] (Some JNull)); Some created])
  = (Throw TypeError,
     {| world := [Some created];
        log := [(info_request sample_config (lit "job/folder/job/job") (lit "7")
                   encoded_rebuild_tree,
                 Some (response 200 "OK" None [] (Some JNull)))] |}).
Proof.
  exact (proj2 (rebuild_stops_on_unusable_answer sample_config _ scripted
                  (lit "folder/job") (lit "7") (lit "job/folder/job/job")
                  [Some (response 200 "OK" None [] (Some JNull)); Some created]
                  (response 200 "OK" None [] (Some JNull)) [Some created]
                  eq_refl eq_refl eq_refl)
               JNull TypeError eq_refl eq_refl).
Defined.

(** ** Distinct jobs, distinct paths *)

Ltac euclid := zify; Z.to_euclidean_division_equations; lia.

Lemma lor_small a y k :
  (y < 2 ^ k)%N -> N.land a (N.ones k) = 0%N -> N.lor a y = (a + y)%N.
Proof.
  intros Hy Ha.
  assert (Hland : N.land a y = 0%N).
  { rewrite <- (N.mod_small y (2 ^ k)) by exact Hy.
    rewrite <- N.land_ones, (N.land_comm y), N.land_assoc, Ha. apply N.land_0_l. }
  rewrite <- (N.lxor_lor _ _ Hland). symmetry. now apply N.add_nocarry_lxor.
Qed.

Lemma continuation_byte n : N.lor 128 (N.land n 63) = (128 + n mod 64)%N.
Proof.
  change 63%N with (N.ones 6). rewrite N.land_ones.
  apply (lor_small 128 _ 6); [apply N.mod_lt; discriminate|reflexivity].
Qed.

(** The octets of a code point below 2^21, in arithmetic. *)
Lemma utf8_octets cp :
  (cp < 2097152)%N ->
  utf8 cp
  = if (cp <? 128)%N then [cp]
    else if (cp <? 2048)%N then [192 + cp / 64; 128 + cp mod 64]%N
    else if (cp <? 65536)%N then
      [224 + cp / 4096; 128 + (cp / 64) mod 64; 128 + cp mod 64]%N
    else [240 + cp / 262144; 128 + (cp / 4096) mod 64;
          128 + (cp / 64) mod 64; 128 + cp mod 64]%N.
Proof.
  intros Hcp. unfold utf8. cbv zeta.
  rewrite !continuation_byte, !N.shiftr_div_pow2.
  change (2 ^ 6)%N with 64%N. change (2 ^ 12)%N with 4096%N.
  change (2 ^ 18)%N with 262144%N.
  destruct (N.ltb_spec cp 128); [reflexivity|].
  destruct (N.ltb_spec cp 2048).
  - rewrite (lor_small 192 (cp / 64) 5); [reflexivity|simpl; euclid|reflexivity].
  - destruct (N.ltb_spec cp 65536).
    + rewrite (lor_small 224 (cp / 4096) 4); [reflexivity|simpl; euclid|reflexivity].
    + rewrite (lor_small 240 (cp / 262144) 3); [reflexivity|simpl; euclid|reflexivity].
Qed.

Lemma hex_digit_mod a b :
  hex_digit a = hex_digit b -> (a mod 16 = b mod 16)%N.
Proof.
  unfold hex_digit. cbv zeta. change 15%N with (N.ones 4).
  rewrite !N.land_ones. change (2 ^ 4)%N with 16%N.
  assert (a mod 16 < 16)%N by (apply N.mod_lt; discriminate).
  assert (b mod 16 < 16)%N by (apply N.mod_lt; discriminate).
  destruct (N.ltb_spec (a mod 16) 10), (N.ltb_spec (b mod 16) 10); lia.
Qed.

Lemma octet_eq b b' :
  (b < 256)%N -> (b' < 256)%N ->
  hex_digit (N.shiftr b 4) = hex_digit (N.shiftr b' 4) ->
  hex_digit b = hex_digit b' ->
  b = b'.
Proof.
  intros Hb Hb' Hhi Hlo. apply hex_digit_mod in Hhi, Hlo.
  rewrite !N.shiftr_div_pow2 in Hhi. change (2 ^ 4)%N with 16%N in Hhi.
  euclid.
Qed.

Lemma octet_app_inj b b' (y y' : jsstring) :
  (b < 256)%N -> (b' < 256)%N ->
  percent_octet b ++ y = percent_octet b' ++ y' ->
  b = b' /\ y = y'.
Proof.
  intros Hb Hb'. unfold percent_octet. cbn [app]. intros E.
  injection E as Hhi Hlo Hy.
  split; [|exact Hy]. now apply octet_eq.
Qed.

Lemma flat_octets_cons b bs (x : jsstring) :
  flat_map percent_octet (b :: bs) ++ x
  = percent_octet b ++ (flat_map percent_octet bs ++ x).
Proof. cbn [flat_map]. now rewrite <- app_assoc. Qed.

Lemma flat_octets_nil (x : jsstring) : flat_map percent_octet [] ++ x = x.
Proof. reflexivity. Qed.

Ltac octets E :=
  rewrite ?flat_octets_cons, ?flat_octets_nil in E;
  repeat match type of E with
         | percent_octet ?b ++ _ = percent_octet ?b' ++ _ =>
             let Hb := fresh "Hb" in
             apply octet_app_inj in E; [destruct E as [Hb E]|euclid|euclid]
         end.

(** The percent-encoded form of a code point can be read back from the front
    of a string: it tells the code point and where its octets end. *)
Lemma percent_encode_prefix_inj cp cp' x x' :
  (cp < 2097152)%N -> (cp' < 2097152)%N ->
  percent_encode cp ++ x = percent_encode cp' ++ x' ->
  cp = cp' /\ x = x'.
Proof.
  intros Hcp Hcp'. unfold percent_encode.
  rewrite (utf8_octets cp Hcp), (utf8_octets cp' Hcp').
  destruct (N.ltb_spec cp 128); [|destruct (N.ltb_spec cp 2048);
                                   [|destruct (N.ltb_spec cp 65536)]];
  (destruct (N.ltb_spec cp' 128); [|destruct (N.ltb_spec cp' 2048);
                                     [|destruct (N.ltb_spec cp' 65536)]]);
  intros E; octets E;
  match type of E with
  | x = x' => split; [euclid|exact E]
  | _ => exfalso; euclid
  end.
Qed.

Lemma percent_encode_head cp : exists t, percent_encode cp = 37%N :: t.
Proof.
  unfold percent_encode, utf8. cbv zeta.
  destruct (cp <? 128)%N; [|destruct (cp <? 2048)%N; [|destruct (cp <? 65536)%N]];
    eexists; reflexivity.
Qed.

Lemma code_units_tail c r : code_units (c :: r) -> (c < 65536)%N /\ code_units r.
Proof. intros H. now inversion H. Qed.

(** One step of the encoder on a code unit that is not unreserved: it takes
    the code units of one code point off the front and puts the percent-encoded
    form of that code point before the encoding of the rest. *)
Lemma encodeURIComponent_step c r e :
  uri_unreserved c = false ->
  code_units (c :: r) ->
  encodeURIComponent (c :: r) = Ok e ->
  exists cp rest e',
    (cp < 2097152)%N /\
    c :: r = units_of cp ++ rest /\
    encodeURIComponent rest = Ok e' /\
    e = percent_encode cp ++ e' /\
    code_units rest /\
    List.length rest <= List.length r.
Proof.
  intros Hu Hunits. destruct (code_units_tail _ _ Hunits) as [Hc Hr].
  simpl encodeURIComponent. rewrite Hu.
  destruct (is_trail_surrogate c) eqn:Htrail; [discriminate|].
  destruct (is_lead_surrogate c) eqn:Hlead.
  - destruct r as [|d r']; [discriminate|].
    destruct (is_trail_surrogate d) eqn:Hd; [|discriminate].
    destruct (encodeURIComponent r') as [e'|] eqn:Hr'; [|discriminate].
    intros [= <-].
    destruct (code_units_tail _ _ Hr) as [_ Hr''].
    unfold is_lead_surrogate, is_trail_surrogate, in_range in Hlead, Hd.
    apply andb_true_iff in Hlead, Hd.
    destruct Hlead as [L1 L2], Hd as [D1 D2].
    apply N.leb_le in L1, L2, D1, D2.
    exists (code_point_of_pair c d), r', e'.
    split; [unfold code_point_of_pair; lia|].
    split.
    + unfold units_of, code_point_of_pair.
      destruct (N.ltb_spec ((c - 55296) * 1024 + (d - 56320) + 65536) 65536); [lia|].
      replace ((c - 55296) * 1024 + (d - 56320) + 65536 - 65536)%N
        with ((d - 56320) + (c - 55296) * 1024)%N by lia.
      rewrite N.div_add, N.Div0.mod_add by lia.
      rewrite N.div_small, N.mod_small by lia.
      cbn [app]. f_equal; [lia|]. f_equal. lia.
    + repeat split; try assumption. simpl. lia.
  - destruct (encodeURIComponent r) as [e'|] eqn:Hr'; [|discriminate].
    intros [= <-]. exists c, r, e'.
    split; [lia|]. split.
    + unfold units_of. apply N.ltb_lt in Hc. now rewrite Hc.
    + repeat split; try assumption. lia.
Qed.

Lemma encodeURIComponent_inj_bounded n : forall s s' e,
  List.length s <= n ->
  code_units s -> code_units s' ->
  encodeURIComponent s = Ok e -> encodeURIComponent s' = Ok e ->
  s = s'.
Proof.
  assert (Hnil : forall c r, code_units (c :: r) -> encodeURIComponent (c :: r) <> Ok []).
  { intros c r Hunits E. destruct (uri_unreserved c) eqn:Hu.
    - simpl in E. rewrite Hu in E.
      destruct (encodeURIComponent r); discriminate.
    - destruct (encodeURIComponent_step c r [] Hu Hunits E)
        as (cp & rest & e' & _ & _ & _ & E' & _).
      destruct (percent_encode_head cp) as (t & Ht). rewrite Ht in E'. discriminate. }
  induction n as [|n IH]; intros s s' e Hlen Hs Hs' E E'.
  - destruct s; [|simpl in Hlen; lia]. injection E as <-.
    destruct s' as [|c' r']; [reflexivity|]. now apply Hnil in E'.
  - destruct s as [|c r].
    + injection E as <-. destruct s' as [|c' r']; [reflexivity|]. now apply Hnil in E'.
    + destruct s' as [|c' r']; [injection E' as <-; now apply Hnil in E|].
      simpl in Hlen.
      destruct (uri_unreserved c) eqn:Hu, (uri_unreserved c') eqn:Hu'.
      * simpl in E, E'. rewrite Hu in E. rewrite Hu' in E'.
        destruct (encodeURIComponent r) as [e1|] eqn:Hr; [|discriminate].
        destruct (encodeURIComponent r') as [e1'|] eqn:Hr'; [|discriminate].
        injection E as <-. injection E' as Hc He. subst c' e1'.
        f_equal. apply (IH r r' e1); try assumption; try lia.
        -- now apply code_units_tail in Hs.
        -- now apply code_units_tail in Hs'.
      * simpl in E. rewrite Hu in E.
        destruct (encodeURIComponent r) as [e1|]; [|discriminate].
        injection E as <-.
        destruct (encodeURIComponent_step c' r' _ Hu' Hs' E')
          as (cp & rest & e' & _ & _ & _ & Ee & _).
        destruct (percent_encode_head cp) as (t & Ht). rewrite Ht in Ee.
        injection Ee as -> _. discriminate Hu.
      * simpl in E'. rewrite Hu' in E'.
        destruct (encodeURIComponent r') as [e1|]; [|discriminate].
        injection E' as <-.
        destruct (encodeURIComponent_step c r _ Hu Hs E)
          as (cp & rest & e' & _ & _ & _ & Ee & _).
        destruct (percent_encode_head cp) as (t & Ht). rewrite Ht in Ee.
        injection Ee as -> _. discriminate Hu'.
      * destruct (encodeURIComponent_step c r e Hu Hs E)
          as (cp & rest & e1 & Hcp & -> & Hrest & -> & Hunits & Hl).
        destruct (encodeURIComponent_step c' r' _ Hu' Hs' E')
          as (cp' & rest' & e1' & Hcp' & -> & Hrest' & Ee & Hunits' & Hl').
        destruct (percent_encode_prefix_inj cp cp' e1 e1' Hcp Hcp' Ee) as [<- <-].
        f_equal. apply (IH rest rest' e1); try assumption. lia.
Qed.

Lemma encodeURIComponent_injective s s' e :
  code_units s -> code_units s' ->
  encodeURIComponent s = Ok e -> encodeURIComponent s' = Ok e ->
  s = s'.
Proof. apply (encodeURIComponent_inj_bounded (List.length s)). lia. Qed.

Lemma split_code_units c s : code_units s -> Forall code_units (split c s).
Proof.
  induction 1 as [|x r Hx Hr IH]; [repeat constructor|].
  simpl. destruct (N.eqb x c).
  - constructor; [constructor|exact IH].
  - destruct (split c r) as [|h t]; [repeat constructor; exact Hx|].
    inversion IH as [|? ? Hh Ht]; subst.
    constructor; [|exact Ht]. now constructor.
Qed.

Lemma encoded_pieces_free segs encs :
  Forall2 (fun seg e => encodeURIComponent seg = Ok e) segs encs ->
  Forall (fun e => ~ In slash e) encs.
Proof.
  induction 1 as [|seg e segs encs He _ IH]; constructor; [|exact IH].
  exact (encodeURIComponent_no_slash _ _ He).
Qed.

Lemma marked_pieces_inj encs : forall encs',
  flat_map (fun e : jsstring => [lit "job"; e]) encs
  = flat_map (fun e : jsstring => [lit "job"; e]) encs' ->
  encs = encs'.
Proof.
  induction encs as [|e encs IH]; intros [|e' encs'] E; try discriminate; [reflexivity|].
  cbn [flat_map app] in E. injection E as -> E. f_equal. now apply IH.
Qed.

Lemma encoded_segments_inj segs : forall segs' encs,
  Forall code_units segs -> Forall code_units segs' ->
  Forall2 (fun seg e => encodeURIComponent seg = Ok e) segs encs ->
  Forall2 (fun seg e => encodeURIComponent seg = Ok e) segs' encs ->
  segs = segs'.
Proof.
  induction segs as [|seg segs IH]; intros segs' encs Hu Hu' H H'.
  - inversion H; subst. now inversion H'.
  - inversion H as [|? e ? encs1 He Hrest]; subst.
    inversion H' as [|seg' ? segs1 ? He' Hrest']; subst.
    inversion Hu; subst. inversion Hu'; subst.
    f_equal.
    + now apply (encodeURIComponent_injective seg seg' e).
    + now apply (IH segs1 encs1).
Qed.

(** Distinct job names never share a path: when [jobPath] resolves two job
    names (strings of 16-bit code units) to the same path, the names are
    equal. *)
Theorem jobPath_injective (job job' path : jsstring) :
  code_units job -> code_units job' ->
  jobPath job = Ok path -> jobPath job' = Ok path ->
  job = job'.
Proof.
  intros Hu Hu' Hp Hp'.
  destruct (jobPath_ok_inv _ _ Hp) as (encs & Hall & E).
  destruct (jobPath_ok_inv _ _ Hp') as (encs' & Hall' & E').
  assert (Hne : forall j es,
    Forall2 (fun seg e => encodeURIComponent seg = Ok e) (split slash j) es -> es <> []).
  { intros j es H ->. inversion H as [Hs|]. now apply (split_not_nil slash j). }
  assert (Hencs : encs = encs').
  { apply marked_pieces_inj.
    rewrite <- (split_marked_join encs), <- (split_marked_join encs').
    - now rewrite <- E, <- E'.
    - exact (Hne _ _ Hall').
    - exact (encoded_pieces_free _ _ Hall').
    - exact (Hne _ _ Hall).
    - exact (encoded_pieces_free _ _ Hall). }
  subst encs'.
  rewrite <- (join_split slash job), <- (join_split slash job').
  f_equal.
  apply (encoded_segments_inj _ _ encs); try assumption; now apply split_code_units.
Qed.

Lemma jobPath_injective_witness :
  code_units (lit "team/app") /\ code_units (lit "team/app") /\
  jobPath (lit "team/app") = Ok (lit "job/team/job/app") /\
  lit "team/app" = lit "team/app".
Proof.
  assert (Hu : code_units (lit "team/app")).
  { apply Forall_forall. intros c Hc. simpl in Hc.
    repeat (destruct Hc as [<-|Hc]; [reflexivity|]). destruct Hc. }
  assert (Hp : jobPath (lit "team/app") = Ok (lit "job/team/job/app")) by reflexivity.
  split; [exact Hu|]. split; [exact Hu|]. split; [exact Hp|].
  exact (jobPath_injective (lit "team/app") (lit "team/app") (lit "job/team/job/app")
           Hu Hu Hp Hp).
Defined.

(** ** The requests of a job's tools *)

Section JobRequests.
Context {P : Platform}.
Variable cfg : Config.
Variable World : Type.
Variable fetch : Request -> World -> option Response * World.

Lemma grows_lift_bind {A B} n R (r : result A) (k : A -> M World B) :
  (forall a, r = Ok a -> grows_by n R (k a)) ->
  grows_by n R (bind (lift r) k).
Proof.
  intros Hk st. unfold bind, lift. destruct r as [a|e].
  - exact (Hk a eq_refl st).
  - exists []. rewrite app_nil_r. repeat split; [simpl; lia|constructor].
Qed.

Lemma run_grows_under_job c job :
  job_of c = Some job ->
  exists n,
    grows_by n (fun req => exists jp rest,
                  jobPath job = Ok jp /\
                  url req = JENKINS_URL cfg ++ lit "/" ++ jp ++ lit "/" ++ rest)
             (run cfg fetch c).
Proof.
  intros Hjob.
  destruct c; simpl in Hjob; try discriminate; injection Hjob as ->;
    unfold run; eexists;
    repeat first
      [ apply grows_ret
      | apply grows_lift_bind; intros
      | apply grows_lift
      | apply grows_json_of
      | apply grows_text_of
      | apply grows_jenkins;
        match goal with
        | H : jobPath _ = Ok ?jp |- _ =>
            exists jp; eexists; split; [exact H|reflexivity]
        end
      | eapply grows_bind; [|intros]
      | match goal with
        | |- grows_by _ _ (trigger _ _ _ ?params) => unfold trigger; destruct params
        | |- grows_by _ _ (match ?x with _ => _ end) => destruct x
        end ].
Qed.

(** Every request of a tool that takes a job goes to a URL under that job's
    resolved path: the configured base, a slash, the job path, a slash, and
    the rest.  For rebuild this holds of the read and of the trigger. *)
Theorem every_request_targets_job (c : Call) (job : jsstring) (w : World) (req : Request) :
  job_of c = Some job ->
  In req (sent (snd (run cfg fetch c (start w)))) ->
  exists jp rest,
    jobPath job = Ok jp /\
    url req = JENKINS_URL cfg ++ lit "/" ++ jp ++ lit "/" ++ rest.
Proof.
  intros Hjob Hin. destruct (run_grows_under_job c job Hjob) as (n & Hn).
  destruct (Hn (start w)) as (more & E & _ & F).
  unfold sent in Hin. rewrite E in Hin. simpl in Hin.
  apply in_map_iff in Hin. destruct Hin as (ex & <- & Hex).
  rewrite Forall_forall in F. exact (F ex Hex).
Qed.

(** A tree filter with an unpaired surrogate makes get_job_info and
    get_build_info fail with URIError before the job name is looked at and
    before anything is sent. *)
Theorem ill_formed_tree_sends_nothing (c : Call) (tree : jsstring) (w : World) :
  tree_of c = Some tree ->
  isWellFormed tree = false ->
  run cfg fetch c (start w) = (Throw URIError, start w).
Proof.
  intros Htree Hill.
  assert (Hq : tree_query (Some tree) = Throw URIError).
  { destruct tree as [|ch t]; [discriminate|].
    unfold tree_query. now rewrite (encodeURIComponent_ill_formed _ Hill). }
  destruct c; simpl in Htree; try discriminate; subst; unfold run; now rewrite Hq.
Qed.

End JobRequests.

Lemma encodeURIComponent_value_chars s e :
  encodeURIComponent s = Ok e -> forallb value_char e = true.
Proof.
  intros He. apply forallb_forall. intros c Hc.
  pose proof (encodeURIComponent_chars_bounded (List.length s) s e (le_n _) He) as H.
  rewrite Forall_forall in H. unfold value_char.
  destruct (H c Hc) as [-> | ->]; [reflexivity|]. apply orb_true_r.
Qed.

Lemma encodeURIComponent_nonempty c r e :
  encodeURIComponent (c :: r) = Ok e -> e <> [].
Proof.
  simpl. destruct (uri_unreserved c).
  - destruct (encodeURIComponent r); [|discriminate]. intros [= <-]. discriminate.
  - destruct (is_trail_surrogate c); [discriminate|].
    destruct (is_lead_surrogate c).
    + destruct r as [|d r']; [discriminate|].
      destruct (is_trail_surrogate d); [|discriminate].
      destruct (encodeURIComponent r'); [|discriminate]. intros [= <-].
      destruct (percent_encode_head (code_point_of_pair c d)) as (t & ->). discriminate.
    + destruct (encodeURIComponent r); [|discriminate]. intros [= <-].
      destruct (percent_encode_head c) as (t & ->). discriminate.
Qed.

(** ** The tree filter in the query *)

Lemma tree_query_ok tree qs : tree_query tree = Ok qs -> query_of tree qs.
Proof.
  destruct tree as [[|c t]|]; unfold tree_query.
  - intros [= <-]. split; [split; [now right|reflexivity]|congruence].
  - destruct (encodeURIComponent (c :: t)) as [e|x] eqn:He; unfold rbind;
      [|discriminate].
    intros [= <-]. split.
    + split; [discriminate|]. intros [H|H]; discriminate.
    + intros _. exists (c :: t), e. repeat split.
      * exact He.
      * exact (encodeURIComponent_nonempty _ _ _ He).
      * exact (encodeURIComponent_value_chars _ _ He).
  - intros [= <-]. split; [split; [now left|reflexivity]|congruence].
Qed.

Section TreeFilter.
Context {P : Platform}.
Variable cfg : Config.
Variable World : Type.
Variable fetch : Request -> World -> option Response * World.

Ltac grow_info :=
  unfold run; eexists;
  repeat first
    [ apply grows_ret
    | apply grows_lift_bind; intros
    | apply grows_lift
    | apply grows_json_of
    | apply grows_jenkins;
      match goal with
      | Hq : tree_query _ = Ok ?qs, Hj : jobPath _ = Ok ?jp |- _ =>
          exists jp, qs; split; [exact Hj|split; [exact (tree_query_ok _ _ Hq)|reflexivity]]
      end
    | eapply grows_bind; [|intros] ].

Lemma job_info_grows job tree :
  exists n,
    grows_by n (fun req => exists jp qs,
                  jobPath job = Ok jp /\ query_of tree qs /\
                  url req = JENKINS_URL cfg ++ lit "/" ++ jp ++ lit "/api/json" ++ qs)
             (run cfg fetch (jenkins_get_job_info job tree)).
Proof. grow_info. Qed.

Lemma build_info_grows job build tree :
  exists n,
    grows_by n (fun req => exists jp qs,
                  jobPath job = Ok jp /\ query_of tree qs /\
                  url req = JENKINS_URL cfg ++ lit "/" ++ jp ++ lit "/" ++ build
                              ++ lit "/api/json" ++ qs)
             (run cfg fetch (jenkins_get_build_info job build tree)).
Proof. grow_info. Qed.

Lemma grown_requests {A} n R (m : M World A) (w : World) req :
  grows_by n R m -> In req (sent (snd (m (start w)))) -> R req.
Proof.
  intros Hn Hin. destruct (Hn (start w)) as (more & E & _ & F).
  unfold sent in Hin. rewrite E in Hin. simpl in Hin.
  apply in_map_iff in Hin. destruct Hin as (ex & <- & Hex).
  rewrite Forall_forall in F. exact (F ex Hex).
Qed.

(** The tree filter in the requests of get_job_info and get_build_info.
    Every request of these tools goes to the job's api/json (of the build, for
    get_build_info) followed by the query the filter gives: nothing when the
    filter is absent or the empty string; otherwise ?tree= and the filter's
    encoded form, which is not empty and holds only unreserved characters and
    percent signs, so that the filter can neither end the value nor start
    another query field or a fragment. *)
Theorem tree_query_is_safe job build tree (w : World) req :
  (In req (sent (snd (run cfg fetch (jenkins_get_job_info job tree) (start w)))) ->
   exists jp qs,
     jobPath job = Ok jp /\ query_of tree qs /\
     url req = JENKINS_URL cfg ++ lit "/" ++ jp ++ lit "/api/json" ++ qs) /\
  (In req (sent (snd (run cfg fetch (jenkins_get_build_info job build tree) (start w)))) ->
   exists jp qs,
     jobPath job = Ok jp /\ query_of tree qs /\
     url req = JENKINS_URL cfg ++ lit "/" ++ jp ++ lit "/" ++ build
                 ++ lit "/api/json" ++ qs).
Proof.
  split; intros Hin.
  - destruct (job_info_grows job tree) as (n & Hn).
    exact (grown_requests n _ _ w req Hn Hin).
  - destruct (build_info_grows job build tree) as (n & Hn).
    exact (grown_requests n _ _ w req Hn Hin).
Qed.

End TreeFilter.

(** ** Witnesses *)

Lemma every_request_targets_job_witness :
  exists jp rest,
    jobPath (lit "folder/job") = Ok jp /\
    url (plain_request sample_config (lit "job/folder/job/job"))
    = lit "https://ci.example.com" ++ lit "/" ++ jp ++ lit "/" ++ rest.
Proof.
  refine (every_request_targets_job sample_config _ scripted
            (jenkins_rebuild (lit "folder/job") (lit "7")) (lit "folder/job")
            [Some (response 200 "OK" None [] (Some (JObj []))); Some created]
            (plain_request sample_config (lit "job/folder/job/job"))
            eq_refl _).
  right. left. reflexivity.
Defined.

Lemma ill_formed_tree_sends_nothing_witness :
  run sample_config scripted
      (jenkins_get_job_info (lit "app") (Some (lit "jobs[" ++ [55296%N])))
      (start [Some created])
  = (Throw URIError, start [Some created]).
Proof.
  exact (ill_formed_tree_sends_nothing sample_config _ scripted
           (jenkins_get_job_info (lit "app") (Some (lit "jobs[" ++ [55296%N])))
           (lit "jobs[" ++ [55296%N]) [Some created] eq_refl eq_refl).
Defined.

Lemma tree_query_is_safe_witness :
  exists jp qs,
    jobPath (lit "app") = Ok jp /\ query_of (Some (lit "jobs[name]")) qs /\
    url (request_for sample_config (lit "job/app/api/json?tree=jobs%5Bname%5D") no_options)
    = lit "https://ci.example.com" ++ lit "/" ++ jp ++ lit "/api/json" ++ qs.
Proof.
  refine (proj1 (tree_query_is_safe sample_config _ scripted
                   (lit "app") (lit "7") (Some (lit "jobs[name]"))
                   [Some not_found]
                   (request_for sample_config
                      (lit "job/app/api/json?tree=jobs%5Bname%5D") no_options)) _).
  left. reflexivity.
Defined.
